(** * material_tools: building a material from the selected textures

  A shallow embedding of [Content/Python/material_tools.py] and the
  properties of its suffix dispatch, its layout counter and its
  find-or-create helper.

  The script drives the editor through [unreal.*] calls.  The editor is
  modelled as a world holding the asset registry, the current selection
  and the log of the requests the script has issued; Python exceptions
  are results of the [M] monad, and the effects made before an exception
  stay in the world.

  - Assets are registered under the path names the script passes to
    [does_asset_exist] and [load_asset].
  - A material expression is the handle returned at its creation; what
    the script does to the material graph is read off the log.
  - Editor requests succeed.  The exceptions are Python's own:
    [IndexError] from indexing the result of [rsplit], [AttributeError]
    from calling a method of [None].
  - [create_unique_asset_name] is left to an instance of [Editor]: the
    script's control flow depends on its answer, and the script does not
    determine it. *)

From Stdlib Require Import ZArith Lia Ascii.
From stdpp Require Import gmap strings list.

Local Open Scope Z_scope.
Local Open Scope stdpp_scope.

(** ** Python [str] methods used by the script *)

Module Str.

(** [s.startswith(p)] *)
Fixpoint startswith (p s : string) : bool :=
  match p, s with
  | "", _ => true
  | String _ _, "" => false
  | String a p', String b s' => if Ascii.eqb a b then startswith p' s' else false
  end.

(** [sub in s] *)
Fixpoint contains (sub s : string) : bool :=
  startswith sub s ||
  match s with
  | "" => false
  | String _ s' => contains sub s'
  end.

(** [s[n:]] *)
Fixpoint drop (n : nat) (s : string) : string :=
  match n, s with
  | O, _ => s
  | S _, "" => ""
  | S n', String _ s' => drop n' s'
  end.

(** [s.replace(old, new)] scans from the left and replaces every
    occurrence of [old] it meets, resuming after the replaced text.
    [skip] counts the characters of a matched occurrence that are still
    to be passed over. *)
Fixpoint replace_from (old new : string) (skip : nat) (s : string) : string :=
  match s with
  | "" => ""
  | String c s' =>
      match skip with
      | S n => replace_from old new n s'
      | O =>
          if startswith old s
          then new +:+ replace_from old new (String.length old - 1) s'
          else String c (replace_from old new 0 s')
      end
  end.

(** With an empty [old], Python puts [new] before every character and
    at the end. *)
Fixpoint surround (new s : string) : string :=
  match s with
  | "" => new
  | String c s' => new +:+ String c (surround new s')
  end.

Definition replace (old new s : string) : string :=
  match old with
  | "" => surround new s
  | String _ _ => replace_from old new 0 s
  end.

(** The rightmost occurrence of [sep] in [s]: the text before it and the
    text after it ([s.rpartition(sep)] without the separator). *)
Fixpoint rpartition (sep s : string) : option (string * string) :=
  match s with
  | "" => None
  | String c s' =>
      match rpartition sep s' with
      | Some (before, after) => Some (String c before, after)
      | None =>
          if startswith sep s then Some ("", drop (String.length sep) s)
          else None
      end
  end.

(** [s.rsplit(sep, maxsplit)] for a non-empty [sep]: at most [maxsplit]
    splits, made from the right. *)
Fixpoint rsplit (sep : string) (maxsplit : nat) (s : string) : list string :=
  match maxsplit with
  | O => [s]
  | S n =>
      match rpartition sep s with
      | None => [s]
      | Some (before, after) => rsplit sep n before ++ [after]
      end
  end.

End Str.

(** ** Editor objects and the requests the script issues *)

(** What the script can observe of an asset: its path name and whether it
    is a texture, a material or something else. *)
Inductive UClass := Material | Texture | OtherClass.

Record UObject := {
  get_path_name : string;
  get_class : UClass;
}.

Global Instance UClass_eq_dec : EqDecision UClass.
Proof. solve_decision. Defined.

Global Instance UObject_eq_dec : EqDecision UObject.
Proof. solve_decision. Defined.

(** [isinstance(obj, cls)] *)
Definition isinstance (obj : UObject) (cls : UClass) : bool :=
  bool_decide (get_class obj = cls).

Inductive MaterialProperty :=
| MP_BASE_COLOR | MP_OPACITY | MP_AMBIENT_OCCLUSION | MP_NORMAL
| MP_METALLIC | MP_ROUGHNESS | MP_SPECULAR | MP_EMISSIVE_COLOR.

Inductive BlendMode := BLEND_TRANSLUCENT.

Inductive MaterialSamplerType :=
| SAMPLERTYPE_MASKS | SAMPLERTYPE_GRAYSCALE | SAMPLERTYPE_NORMAL.

Inductive ExpressionClass :=
| MaterialExpressionTextureSample | MaterialExpressionMultiply.

(** Values passed to [set_editor_property] and assigned to attributes. *)
Inductive Value :=
| VNum (n : Z)
| VBlendMode (b : BlendMode)
| VSamplerType (t : MaterialSamplerType)
| VObject (o : option UObject).

(** A material expression is known to the script by the handle the editor
    returned when it was created. *)
Definition Expression := nat.

(** The requests that change the editor's state, as logged by the world.
    A material argument is whatever reference the script holds, [None]
    being Python's [None]. *)
Inductive Request :=
| ReqCreateAsset (asset_name package_path : string)
| ReqCreateMaterialExpression
    (material : option UObject) (cls : ExpressionClass) (x y : Z)
| ReqSetExpressionProperty (expression : Expression) (property : string) (value : Value)
| ReqSetMaterialProperty (material : UObject) (property : string) (value : Value)
| ReqConnectMaterialProperty
    (from_expression : Expression) (from_output_name : string) (property : MaterialProperty)
| ReqConnectMaterialExpressions
    (from_expression : Expression) (from_output_name : string)
    (to_expression : Expression) (to_input_name : string)
| ReqRecompileMaterial (material : option UObject)
| ReqSaveAsset (asset_to_save : string) (only_if_is_dirty : bool)
| ReqOpenEditorForAssets (assets : list (option UObject)).

Record World := {
  registry : gmap string UObject;
  selected : list UObject;
  expressions : nat;
  log : list Request;
}.

(** The editor's naming service, the one part of the host whose answers
    the script's control flow depends on and that the script does not
    determine: [create_unique_asset_name(base, suffix)] seen as a function
    of the registry. *)
Class Editor := {
  unique_asset_name : gmap string UObject -> string -> string -> string * string;
}.

(** ** Python exceptions and the script's monad *)

Inductive Exn := IndexError | AttributeError.

Inductive Result (A : Type) :=
| Ok (a : A)
| Raise (e : Exn).
Arguments Ok {A} a.
Arguments Raise {A} e.

Definition M (A : Type) : Type := World -> Result A * World.

Global Instance M_ret : MRet M := fun A a w => (Ok a, w).

Global Instance M_throw : MThrow Exn M := fun A e w => (Raise e, w).

(** Sequencing stops at the first exception; the world keeps what was
    done before it. *)
Global Instance M_bind : MBind M := fun A B k c w =>
  match c w with
  | (Ok a, w') => k a w'
  | (Raise e, w') => (Raise e, w')
  end.

(** [for x in xs: body(x)] *)
Fixpoint for_each {A} (xs : list A) (body : A -> M unit) : M unit :=
  match xs with
  | [] => mret tt
  | x :: xs' => body x ;; for_each xs' body
  end.

(** A [for] loop whose body updates a local variable. *)
Fixpoint for_each_with {A S} (xs : list A) (local : S) (body : A -> S -> M S) : M S :=
  match xs with
  | [] => mret local
  | x :: xs' => local' ← body x local; for_each_with xs' local' body
  end.

(** [xs[i]] *)
Definition getitem {A} (xs : list A) (i : nat) : M A :=
  match xs !! i with
  | Some x => mret x
  | None => mthrow IndexError
  end.

Definition request (r : Request) : M unit :=
  fun w =>
    (Ok tt, {| registry := registry w; selected := selected w;
               expressions := expressions w; log := log w ++ [r] |}).

(** ** The [unreal] module *)

(** [unreal.load_asset(path)]: the asset, or [None] when there is none. *)
Definition load_asset (path : string) : M (option UObject) :=
  fun w => (Ok (registry w !! path), w).

Module AssetToolsHelpers.
Definition get_asset_tools : M unit := mret tt.
End AssetToolsHelpers.

Module AssetTools.
Definition create_unique_asset_name `{Editor}
    (base_package_name suffix : string) : M (string * string) :=
  fun w => (Ok (unique_asset_name (registry w) base_package_name suffix), w).

(** [create_asset(name, path, unreal.Material, unreal.MaterialFactoryNew())]
    registers a new material under [path/name] and returns it. *)
Definition create_asset (asset_name package_path : string) : M (option UObject) :=
  fun w =>
    let key := package_path +:+ "/" +:+ asset_name in
    let asset := {| get_path_name := key; get_class := Material |} in
    (Ok (Some asset),
     {| registry := <[key := asset]> (registry w); selected := selected w;
        expressions := expressions w;
        log := log w ++ [ReqCreateAsset asset_name package_path] |}).

Definition open_editor_for_assets (assets : list (option UObject)) : M unit :=
  request (ReqOpenEditorForAssets assets).
End AssetTools.

Module EditorAssetLibrary.
Definition does_asset_exist (asset_path : string) : M bool :=
  fun w => (Ok (bool_decide (is_Some (registry w !! asset_path))), w).

Definition save_asset (asset_to_save : string) (only_if_is_dirty : bool) : M unit :=
  request (ReqSaveAsset asset_to_save only_if_is_dirty).
End EditorAssetLibrary.

Module EditorUtilityLibrary.
Definition get_selected_assets : M (list UObject) :=
  fun w => (Ok (selected w), w).
End EditorUtilityLibrary.

Module MaterialEditingLibrary.
(** Returns the handle of the new expression. *)
Definition create_material_expression
    (material : option UObject) (cls : ExpressionClass) (x y : Z) : M Expression :=
  fun w =>
    (Ok (expressions w),
     {| registry := registry w; selected := selected w;
        expressions := S (expressions w);
        log := log w ++ [ReqCreateMaterialExpression material cls x y] |}).

Definition connect_material_property
    (from_expression : Expression) (from_output_name : string)
    (property : MaterialProperty) : M unit :=
  request (ReqConnectMaterialProperty from_expression from_output_name property).

Definition connect_material_expressions
    (from_expression : Expression) (from_output_name : string)
    (to_expression : Expression) (to_input_name : string) : M unit :=
  request (ReqConnectMaterialExpressions
             from_expression from_output_name to_expression to_input_name).

Definition recompile_material (material : option UObject) : M unit :=
  request (ReqRecompileMaterial material).
End MaterialEditingLibrary.

(** [expression.set_editor_property(name, value)] and attribute
    assignment on an expression. *)
Definition expression_set_editor_property
    (expression : Expression) (property : string) (value : Value) : M unit :=
  request (ReqSetExpressionProperty expression property value).

(** [material.set_editor_property(name, value)]; on [None] the attribute
    lookup fails. *)
Definition material_set_editor_property
    (material : option UObject) (property : string) (value : Value) : M unit :=
  match material with
  | Some m => request (ReqSetMaterialProperty m property value)
  | None => mthrow AttributeError
  end.

(** [material.get_path_name()] *)
Definition material_get_path_name (material : option UObject) : M string :=
  match material with
  | Some m => mret (get_path_name m)
  | None => mthrow AttributeError
  end.

(** ** Actions to be performed on a per-texture basis *)

Inductive Action :=
| CreateConnection (output_name : string) (material_property : MaterialProperty)
| CreateConnectionScaled
    (output_name : string) (material_property : MaterialProperty) (scale : Z)
| SetProperty (property : string) (value : Value)
| SetSamplerType (sampler_type : MaterialSamplerType).

Definition execute (self : Action)
    (material : option UObject) (expression : Expression) (y_pos : Z) : M unit :=
  match self with
  | CreateConnection output_name material_property =>
      MaterialEditingLibrary.connect_material_property
        expression output_name material_property
  | CreateConnectionScaled output_name material_property scale =>
      multiply_node ← MaterialEditingLibrary.create_material_expression
                         material MaterialExpressionMultiply (-250) y_pos;
      expression_set_editor_property multiply_node "ConstB" (VNum scale);;
      MaterialEditingLibrary.connect_material_expressions
        expression output_name multiply_node "A";;
      MaterialEditingLibrary.connect_material_property
        multiply_node "" material_property
  | SetProperty property value =>
      material_set_editor_property material property value
  | SetSamplerType sampler_type =>
      expression_set_editor_property
        expression "sampler_type" (VSamplerType sampler_type)
  end.

(** The suffix dictionary, as the list of its items in insertion order,
    which is the order a [for key in actions] loop visits them in. *)
Definition actions : list (string * list Action) := [
  ("DA", [
     CreateConnection "RGB" MP_BASE_COLOR;
     CreateConnection "A" MP_OPACITY;
     SetProperty "blend_mode" (VBlendMode BLEND_TRANSLUCENT)
   ]);
  ("D", [
     CreateConnection "RGB" MP_BASE_COLOR
   ]);
  ("AO", [
     CreateConnection "R" MP_AMBIENT_OCCLUSION;
     SetSamplerType SAMPLERTYPE_MASKS
   ]);
  ("A", [
     CreateConnection "R" MP_OPACITY;
     SetSamplerType SAMPLERTYPE_GRAYSCALE;
     SetProperty "blend_mode" (VBlendMode BLEND_TRANSLUCENT)
   ]);
  ("N", [
     CreateConnection "RGB" MP_NORMAL;
     SetSamplerType SAMPLERTYPE_NORMAL
   ]);
  ("M", [
     CreateConnection "R" MP_METALLIC;
     SetSamplerType SAMPLERTYPE_MASKS
   ]);
  ("R", [
     CreateConnection "G" MP_ROUGHNESS;
     SetSamplerType SAMPLERTYPE_MASKS
   ]);
  ("S", [
     CreateConnection "B" MP_SPECULAR;
     SetSamplerType SAMPLERTYPE_MASKS
   ]);
  ("E", [
     CreateConnectionScaled "RGB" MP_EMISSIVE_COLOR 15
   ])
].

(** [d[key]] on a dictionary given by its items. *)
Fixpoint dict_get {V} (d : list (string * V)) (key : string) : option V :=
  match d with
  | [] => None
  | (k, v) :: d' => if String.eqb k key then Some v else dict_get d' key
  end.

(** ** Helper functions *)

(** Create a material at a given path. *)
Definition create_empty_material `{Editor} (name : string) : M (option UObject) :=
  asset_tools ← AssetToolsHelpers.get_asset_tools;
  names ← AssetTools.create_unique_asset_name name "";
  let '(package_name, asset_name) := names in
  exists_ ← EditorAssetLibrary.does_asset_exist package_name;
  if negb exists_ then
    path ← getitem (Str.rsplit "/" 1 package_name) 0;
    name ← getitem (Str.rsplit "/" 1 package_name) 1;
    AssetTools.create_asset name path
  else
    load_asset package_name.

(** The body of [for key in actions]: [texture_suffix] is the loop's
    local variable. *)
Definition apply_key
    (material : option UObject) (sampler : Expression) (y_pos : Z)
    (item : string * list Action) (texture_suffix : string) : M string :=
  let key := item.1 in
  if Str.contains key texture_suffix then
    let texture_suffix := Str.replace key "" texture_suffix in
    for_each item.2 (fun action => execute action material sampler y_pos);;
    mret texture_suffix
  else
    mret texture_suffix.

(** Perform the actions defined in the [actions] dictionary. *)
Definition apply_texture
    (material : option UObject) (texture_name : string) (y_pos : Z) : M unit :=
  sampler ← MaterialEditingLibrary.create_material_expression
               material MaterialExpressionTextureSample (-500) y_pos;
  texture ← load_asset texture_name;
  expression_set_editor_property sampler "texture" (VObject texture);;
  texture_suffix ← getitem (Str.rsplit "_" 1 texture_name) 1;
  for_each_with actions texture_suffix (apply_key material sampler y_pos);;
  mret tt.

(** ** Create material from selected textures *)

(** The body of [for asset in selected_assets], with [y_pos] as the
    loop's local variable. *)
Definition place_asset (material : option UObject)
    (asset : UObject) (y_pos : Z) : M Z :=
  if isinstance asset Texture then
    apply_texture material (get_path_name asset) y_pos;;
    mret (y_pos + 250)
  else
    mret y_pos.

Definition create_material_from_textures `{Editor} (name : string) : M unit :=
  material ← create_empty_material name;
  selected_assets ← EditorUtilityLibrary.get_selected_assets;
  for_each_with selected_assets 0 (place_asset material);;
  MaterialEditingLibrary.recompile_material material;;
  path_name ← material_get_path_name material;
  EditorAssetLibrary.save_asset path_name true;;
  asset_tools ← AssetToolsHelpers.get_asset_tools;
  AssetTools.open_editor_for_assets [material].

(** ** Reading the suffix dispatch *)

(** The dictionary items whose actions the loop of [apply_texture] runs
    when it starts with [texture_suffix], in the order it runs them. *)
Fixpoint matched (items : list (string * list Action)) (texture_suffix : string)
    : list (string * list Action) :=
  match items with
  | [] => []
  | item :: items' =>
      if Str.contains item.1 texture_suffix
      then item :: matched items' (Str.replace item.1 "" texture_suffix)
      else matched items' texture_suffix
  end.

(** What is left of [texture_suffix] once the loop has gone through
    [keys]: every key has been replaced by the empty string, in turn. *)
Definition working (keys : list string) (texture_suffix : string) : string :=
  foldl (fun s key => Str.replace key "" s) texture_suffix keys.

(** The texture sample that every call of [apply_texture] starts with. *)
Definition sample_texture
    (material : option UObject) (texture_name : string) (y_pos : Z) : M Expression :=
  sampler ← MaterialEditingLibrary.create_material_expression
               material MaterialExpressionTextureSample (-500) y_pos;
  texture ← load_asset texture_name;
  expression_set_editor_property sampler "texture" (VObject texture);;
  mret sampler.

(** Running a list of actions on one sampler. *)
Definition run_actions (acts : list Action)
    (material : option UObject) (sampler : Expression) (y_pos : Z) : M unit :=
  for_each acts (fun action => execute action material sampler y_pos).

(** ** Occurrences of a key in a suffix *)

(** [old] occurs in [s] at position [i]. *)
Definition occurs_at (old s : string) (i : nat) : bool :=
  Str.startswith old (Str.drop i s).

(** Position [i] of [s] lies inside an occurrence of [old]: one starts at
    some [j] with [j <= i < j + len(old)]. *)
Definition covered (old s : string) (i : nat) : bool :=
  let lo := (S i - String.length old)%nat in
  existsb (occurs_at old s) (seq lo (S i - lo)).

(** The characters of [s] whose position, counted from [i], satisfies
    [keep]. *)
Fixpoint keep_from (keep : nat -> bool) (i : nat) (s : string) : string :=
  match s with
  | "" => ""
  | String c s' =>
      if keep i then String c (keep_from keep (S i) s')
      else keep_from keep (S i) s'
  end.

(** [s] without the characters of any occurrence of [old]. *)
Definition delete_occurrences (old s : string) : string :=
  keep_from (fun i => negb (covered old s i)) 0 s.

(** No proper non-empty end of [old] is also a beginning of it, so two
    occurrences of [old] never overlap. *)
Definition unbordered (old : string) : bool :=
  forallb (fun d => negb (Str.startswith (Str.drop d old) old))
          (seq 1 (String.length old - 1)).

(** ** Worlds *)

(** [w'] is [w] after some requests that leave the registry and the
    selection alone. *)
Definition extends (w w' : World) : Prop :=
  registry w' = registry w ∧ selected w' = selected w ∧
  (expressions w ≤ expressions w')%nat ∧ ∃ rs, log w' = log w ++ rs.

(** The world [w] with [assets] selected. *)
Definition select (assets : list UObject) (w : World) : World :=
  {| registry := registry w; selected := assets;
     expressions := expressions w; log := log w |}.

(** The package name [create_empty_material(name)] computes in [w]. *)
Definition package_name_of `{Editor} (name : string) (w : World) : string :=
  (unique_asset_name (registry w) name "").1.

(** ** A sample project *)

Definition rock_material : UObject :=
  {| get_path_name := "/Game/M_Rock"; get_class := Material |}.

Definition rock_selection : list UObject := [
  {| get_path_name := "/Game/T_Rock_DA"; get_class := Texture |};
  {| get_path_name := "/Game/SM_Rock"; get_class := OtherClass |};
  {| get_path_name := "/Game/T_Rock_N"; get_class := Texture |}
].

Definition rock_project : World :=
  {| registry := list_to_map ((fun o => (get_path_name o, o)) <$> rock_selection);
     selected := rock_selection; expressions := 0; log := [] |}.

(** An editor that answers with the requested name itself. *)
Definition plain_editor : Editor :=
  {| unique_asset_name := fun _ base suffix =>
       let package_name := base +:+ suffix in
       (package_name, default "" (last (Str.rsplit "/" 1 package_name))) |}.

(** An editor that steps aside when the requested name is taken: it
    answers with the name followed by [1]. *)
Definition renaming_editor : Editor :=
  {| unique_asset_name := fun reg base suffix =>
       let package_name :=
         match reg !! (base +:+ suffix) with
         | Some _ => base +:+ suffix +:+ "1"
         | None => base +:+ suffix
         end in
       (package_name, default "" (last (Str.rsplit "/" 1 package_name))) |}.

(** ** Reading the layout loop *)

(** The selected assets that are textures, in selection order. *)
Definition textures_of (assets : list UObject) : list UObject :=
  filter (fun asset => get_class asset = Texture) assets.

(** The calls of [apply_texture] for a list of textures: the [i]-th one
    is placed at [250 * i]. *)
Definition layout (textures : list UObject) : list (string * Z) :=
  imap (fun i asset => (get_path_name asset, 250 * Z.of_nat i)) textures.

(** What [create_material_from_textures] does once the loop is over. *)
Definition finish (material : option UObject) : M unit :=
  MaterialEditingLibrary.recompile_material material;;
  path_name ← material_get_path_name material;
  EditorAssetLibrary.save_asset path_name true;;
  asset_tools ← AssetToolsHelpers.get_asset_tools;
  AssetTools.open_editor_for_assets [material].

(** The positions of the texture samples created by a list of requests, in
    the order of their creation. *)
Definition sample_positions (requests : list Request) : list (Z * Z) :=
  omap (fun r =>
          match r with
          | ReqCreateMaterialExpression _ MaterialExpressionTextureSample x y =>
              Some (x, y)
          | _ => None
          end) requests.

(** A computation does not look at the selection: run with other assets
    selected, it gives the same result and the same world but for the
    selection. *)
Definition selection_blind {A} (c : M A) : Prop :=
  forall assets w, c (select assets w) = ((c w).1, select assets (c w).2).

(** [create_material_from_textures] on a given selection. *)
Definition script `{Editor} (name : string) (assets : list UObject) : M unit :=
  material ← create_empty_material name;
  for_each_with assets 0 (place_asset material);;
  finish material.

(** ** Further readings of the log *)

(** The actions that connect something whatever the material is. *)
Definition connects (action : Action) : bool :=
  match action with
  | CreateConnection _ _ | CreateConnectionScaled _ _ _ => true
  | SetProperty _ _ | SetSamplerType _ => false
  end.

(** The material expressions a request refers to. *)
Definition request_expressions (r : Request) : list Expression :=
  match r with
  | ReqSetExpressionProperty expression _ _ => [expression]
  | ReqConnectMaterialProperty from_expression _ _ => [from_expression]
  | ReqConnectMaterialExpressions from_expression _ to_expression _ =>
      [from_expression; to_expression]
  | _ => []
  end.

(** [w'] is [w] after requests that refer to no expression below [lo]
    and to none that does not exist in [w']; the registry and the selection
    are as they were. *)
Definition grows (lo : nat) (w w' : World) : Prop :=
  registry w' = registry w ∧ selected w' = selected w ∧
  (expressions w ≤ expressions w')%nat ∧
  ∃ rs, log w' = log w ++ rs ∧
        ∀ r e, r ∈ rs → e ∈ request_expressions r →
               (lo ≤ e < expressions w')%nat.

(** The requests with which [create_material_from_textures] ends. *)
Definition finishing (r : Request) : bool :=
  match r with
  | ReqRecompileMaterial _ | ReqSaveAsset _ _ | ReqOpenEditorForAssets _ => true
  | _ => false
  end.

Definition finishing_requests (requests : list Request) : list Request :=
  filter (fun r => finishing r = true) requests.

(** The requests that connect an output to something. *)
Definition connecting (r : Request) : bool :=
  match r with
  | ReqConnectMaterialProperty _ _ _ | ReqConnectMaterialExpressions _ _ _ _ => true
  | _ => false
  end.

(** ** A run cut short *)

(** [texture_name.rsplit('_', 1)[1]], for a name that has an underscore. *)
Definition suffix_of (texture_name : string) : string :=
  default "" (Str.rsplit "_" 1 texture_name !! 1%nat).

(** A texture applied in full: it is sampled, and the actions of the keys
    matched by its suffix are run on the sample. *)
Definition applied
    (material : option UObject) (texture_name : string) (y_pos : Z) : M unit :=
  sampler ← sample_texture material texture_name y_pos;
  run_actions (flat_map snd (matched actions (suffix_of texture_name)))
    material sampler y_pos.

(** The material is found or created, [textures] are applied in full one
    below the other, and [last] is sampled below them. *)
Definition applied_then_sampled `{Editor}
    (name : string) (textures : list UObject) (last : UObject) : M Expression :=
  material ← create_empty_material name;
  for_each (layout textures) (fun call => applied material call.1 call.2);;
  sample_texture material (get_path_name last)
    (250 * Z.of_nat (length textures)).

(** * Properties *)

(** ** Strings *)

Module StrFacts.
Import Str.

Lemma app_nil_l (s : string) : "" +:+ s = s.
Proof. reflexivity. Qed.

Lemma app_cons (c : ascii) (s t : string) :
  String c s +:+ t = String c (s +:+ t).
Proof. reflexivity. Qed.

Lemma app_nil_r (s : string) : s +:+ "" = s.
Proof. induction s as [|c s IH]; [done|]. by rewrite app_cons, IH. Qed.

Lemma app_assoc (s t u : string) : (s +:+ t) +:+ u = s +:+ t +:+ u.
Proof.
  induction s as [|c s IH]; [done|]. by rewrite !app_cons, IH.
Qed.

Lemma length_app (s t : string) :
  String.length (s +:+ t) = (String.length s + String.length t)%nat.
Proof.
  induction s as [|c s IH]; [done|]. rewrite app_cons. simpl. by rewrite IH.
Qed.

Lemma startswith_app (p t : string) : startswith p (p +:+ t) = true.
Proof.
  induction p as [|a p IH]; [done|].
  rewrite app_cons. simpl. by rewrite Ascii.eqb_refl.
Qed.

Lemma startswith_spec (p s : string) :
  startswith p s = true ↔ ∃ t, s = p +:+ t.
Proof.
  split.
  - revert s. induction p as [|a p IH]; intros s Hs.
    + by exists s.
    + destruct s as [|b s]; [done|]. simpl in Hs.
      destruct (Ascii.eqb a b) eqn:Hab; [|done].
      apply Ascii.eqb_eq in Hab as ->.
      destruct (IH _ Hs) as [t ->]. by exists t.
  - intros [t ->]. apply startswith_app.
Qed.

Lemma startswith_drop (p s : string) :
  startswith p s = true → s = p +:+ drop (String.length p) s.
Proof.
  intros [t ->]%startswith_spec. f_equal.
  induction p as [|a p IH]; [by destruct t|]. by rewrite app_cons.
Qed.

Lemma contains_spec (sub s : string) :
  contains sub s = true ↔ ∃ u v, s = u +:+ sub +:+ v.
Proof.
  split.
  - induction s as [|c s IH]; simpl; intros H.
    + rewrite orb_false_r in H. apply startswith_spec in H as [t ->]. by exists "", t.
    + apply orb_true_iff in H as [H|H].
      * apply startswith_spec in H as [t ->]. by exists "", t.
      * destruct (IH H) as (u & v & ->). by exists (String c u), v.
  - intros (u & v & ->). induction u as [|c u IH].
    + rewrite app_nil_l. destruct (sub +:+ v) eqn:E; simpl; rewrite <- E, startswith_app; done.
    + rewrite app_cons. simpl. by rewrite IH, orb_true_r.
Qed.

Lemma contains_nil_l (s : string) : contains "" s = true.
Proof. by destruct s. Qed.

Lemma contains_cons_false (sub : string) (c : ascii) (s : string) :
  contains sub (String c s) = false →
  startswith sub (String c s) = false ∧ contains sub s = false.
Proof. simpl. by intros [??]%orb_false_iff. Qed.


Lemma contains_drop (sub : string) (n : nat) (s : string) :
  contains sub s = false → contains sub (drop n s) = false.
Proof.
  revert s. induction n as [|n IH]; intros s Hs; [done|].
  destruct s as [|c s]; [done|]. simpl.
  apply contains_cons_false in Hs as [_ Hs]. by apply IH.
Qed.

Lemma rpartition_None (sep s : string) :
  sep ≠ "" → rpartition sep s = None ↔ contains sep s = false.
Proof.
  intros Hsep. induction s as [|c s IH].
  - simpl. split; [|done]. intros _. by destruct sep.
  - simpl rpartition. change (contains sep (String c s)) with
      (startswith sep (String c s) || contains sep s).
    rewrite orb_false_iff, <- IH.
    destruct (rpartition sep s) as [[a b]|].
    + split; [done|]. by intros [_ ?].
    + destruct (startswith sep (String c s)); [|done].
      split; [done|]. by intros [? _].
Qed.

Lemma rpartition_Some (sep s a b : string) :
  sep ≠ "" → rpartition sep s = Some (a, b) →
  s = a +:+ sep +:+ b ∧ contains sep b = false.
Proof.
  intros Hsep. revert a b. induction s as [|c s IH]; intros a b; [done|].
  simpl rpartition. destruct (rpartition sep s) as [[a' b']|] eqn:Hrec.
  - intros [= <- <-]. destruct (IH _ _ eq_refl) as [-> Hb]. by rewrite app_cons.
  - destruct (startswith sep (String c s)) eqn:Hst; [|done].
    intros [= <- <-]. split.
    + rewrite app_nil_l. by apply startswith_drop.
    + apply rpartition_None in Hrec; [|done].
      destruct sep as [|x sep]; [done|]. simpl. by apply contains_drop.
Qed.

Lemma rsplit_1_contains (sep s : string) :
  sep ≠ "" → contains sep s = true →
  ∃ a b, rsplit sep 1 s = [a; b] ∧ s = a +:+ sep +:+ b ∧ contains sep b = false.
Proof.
  intros Hsep Hs. simpl. destruct (rpartition sep s) as [[a b]|] eqn:Hp.
  - exists a, b. split; [done|]. by apply rpartition_Some.
  - apply rpartition_None in Hp; congruence.
Qed.

Lemma rsplit_1_not_contains (sep s : string) :
  sep ≠ "" → contains sep s = false → rsplit sep 1 s = [s].
Proof.
  intros Hsep Hs. simpl. by apply rpartition_None in Hs as ->.
Qed.

Lemma replace_from_not_contains (old new s : string) :
  contains old s = false → replace_from old new 0 s = s.
Proof.
  induction s as [|c s IH]; [done|]. intros [Hst Hs]%contains_cons_false.
  simpl replace_from. rewrite Hst. by rewrite IH.
Qed.

Lemma replace_not_contains (old new s : string) :
  contains old s = false → replace old new s = s.
Proof.
  destruct old as [|a old]; [by rewrite contains_nil_l|].
  apply replace_from_not_contains.
Qed.

Lemma drop_cons (n : nat) (c : ascii) (s : string) :
  drop (S n) (String c s) = drop n s.
Proof. reflexivity. Qed.

Lemma replace_from_skip (old new : string) (k : nat) (s : string) :
  replace_from old new k s = replace_from old new 0 (drop k s).
Proof.
  revert k. induction s as [|c s IH]; intros [|k]; try done.
  simpl replace_from at 1. by rewrite IH.
Qed.

Lemma replace_from_cons (old new : string) (c : ascii) (s : string) :
  replace_from old new 0 (String c s) =
  if startswith old (String c s)
  then new +:+ replace_from old new (String.length old - 1) s
  else String c (replace_from old new 0 s).
Proof. reflexivity. Qed.

(** The two equations of [str.replace]: a match is replaced and the scan
    resumes after it; otherwise the character is kept. *)
Lemma replace_match (old new s : string) :
  old ≠ "" → startswith old s = true →
  replace old new s = new +:+ replace old new (drop (String.length old) s).
Proof.
  intros Hold Hst. destruct old as [|a old]; [done|].
  destruct s as [|c s]; [done|]. unfold replace.
  rewrite replace_from_cons, Hst, replace_from_skip.
  replace (String.length (String a old) - 1)%nat with (String.length old)
    by (simpl; lia).
  reflexivity.
Qed.

Lemma replace_no_match (old new : string) (c : ascii) (s : string) :
  old ≠ "" → startswith old (String c s) = false →
  replace old new (String c s) = String c (replace old new s).
Proof.
  intros Hold Hst. destruct old as [|a old]; [done|]. unfold replace.
  by rewrite replace_from_cons, Hst.
Qed.

Example replace_DDAA : replace "DA" "" "DDAA" = "DA".
Proof. reflexivity. Qed.

Example replace_overlapping : replace "aa" "b" "aaaaa" = "bba".
Proof. reflexivity. Qed.

Example replace_empty_old : replace "" "-" "abc" = "-a-b-c-".
Proof. reflexivity. Qed.

Example rsplit_texture : rsplit "_" 1 "/Game/T_Rock_D" = ["/Game/T_Rock"; "D"].
Proof. reflexivity. Qed.

Example rsplit_no_separator : rsplit "_" 1 "Rock" = ["Rock"].
Proof. reflexivity. Qed.

Example rsplit_package : rsplit "/" 1 "/Game/M_Rock" = ["/Game"; "M_Rock"].
Proof. reflexivity. Qed.

End StrFacts.

(** ** The monad and the loops *)

Section monad.
Context {A B : Type}.

Lemma bind_unfold (c : M A) (k : A → M B) (w : World) :
  (c ≫= k) w =
  match c w with
  | (Ok a, w') => k a w'
  | (Raise e, w') => (Raise e, w')
  end.
Proof. reflexivity. Qed.

Lemma ret_unfold (a : A) (w : World) : mret (M:=M) a w = (Ok a, w).
Proof. reflexivity. Qed.

Lemma throw_unfold (e : Exn) (w : World) :
  mthrow (M:=M) (A:=A) e w = (Raise e, w).
Proof. reflexivity. Qed.

Lemma bind_ok (c : M A) (k : A → M B) (w w' : World) (a : A) :
  c w = (Ok a, w') → (c ≫= k) w = k a w'.
Proof. intros H. by rewrite bind_unfold, H. Qed.

Lemma bind_raise (c : M A) (k : A → M B) (w w' : World) (e : Exn) :
  c w = (Raise e, w') → (c ≫= k) w = (Raise e, w').
Proof. intros H. by rewrite bind_unfold, H. Qed.

End monad.

Lemma for_each_app {A} (xs ys : list A) (body : A → M unit) (w : World) :
  for_each (xs ++ ys) body w = (for_each xs body;; for_each ys body) w.
Proof.
  revert w. induction xs as [|x xs IH]; intros w; [done|].
  simpl. rewrite !bind_unfold. destruct (body x w) as [[[]|e] w1]; [|done].
  by rewrite IH.
Qed.

Lemma working_cons (key : string) (keys : list string) (s : string) :
  working (key :: keys) s = working keys (Str.replace key "" s).
Proof. reflexivity. Qed.

Lemma working_snoc (keys : list string) (key : string) (s : string) :
  working (keys ++ [key]) s = Str.replace key "" (working keys s).
Proof. unfold working. by rewrite foldl_app. Qed.

Lemma for_each_with_cons {A S} (x : A) (xs : list A) (local : S)
    (body : A → S → M S) :
  for_each_with (x :: xs) local body =
  (local' ← body x local; for_each_with xs local' body).
Proof. reflexivity. Qed.

Lemma apply_key_match material sampler y_pos key acts texture_suffix :
  Str.contains key texture_suffix = true →
  apply_key material sampler y_pos (key, acts) texture_suffix =
  (run_actions acts material sampler y_pos;;
   mret (Str.replace key "" texture_suffix)).
Proof. intros H. unfold apply_key. simpl fst. by rewrite H. Qed.

Lemma apply_key_skip material sampler y_pos key acts texture_suffix :
  Str.contains key texture_suffix = false →
  apply_key material sampler y_pos (key, acts) texture_suffix = mret texture_suffix.
Proof. intros H. unfold apply_key. simpl fst. by rewrite H. Qed.

Lemma for_keys_matched material sampler y_pos items texture_suffix w :
  for_each_with items texture_suffix (apply_key material sampler y_pos) w =
  (run_actions (flat_map snd (matched items texture_suffix)) material sampler y_pos;;
   mret (working items.*1 texture_suffix)) w.
Proof.
  revert texture_suffix w.
  induction items as [|[key acts] items IH]; intros s w; [done|].
  rewrite for_each_with_cons, fmap_cons, working_cons. simpl matched. simpl fst.
  destruct (Str.contains key s) eqn:Hc.
  - rewrite apply_key_match by done. simpl flat_map. unfold run_actions.
    rewrite !bind_unfold, for_each_app, !bind_unfold.
    destruct (for_each acts _ w) as [[[]|e] w1]; [|done].
    rewrite ret_unfold. cbv beta iota.
    rewrite IH. unfold run_actions. by rewrite !bind_unfold.
  - rewrite apply_key_skip by done.
    rewrite (StrFacts.replace_not_contains _ _ _ Hc), bind_unfold.
    rewrite ret_unfold. apply IH.
Qed.

Lemma sample_texture_run material texture_name y_pos w :
  sample_texture material texture_name y_pos w =
  (Ok (expressions w),
   {| registry := registry w; selected := selected w;
      expressions := S (expressions w);
      log := log w ++
        [ReqCreateMaterialExpression
           material MaterialExpressionTextureSample (-500) y_pos;
         ReqSetExpressionProperty
           (expressions w) "texture" (VObject (registry w !! texture_name))] |}).
Proof.
  unfold sample_texture. cbv [mbind M_bind mret M_ret
    MaterialEditingLibrary.create_material_expression load_asset
    expression_set_editor_property request registry selected expressions log].
  by rewrite <- (assoc_L (++)).
Qed.

Lemma apply_texture_unfold material texture_name y_pos w :
  apply_texture material texture_name y_pos w =
  (sampler ← sample_texture material texture_name y_pos;
   texture_suffix ← getitem (Str.rsplit "_" 1 texture_name) 1;
   run_actions (flat_map snd (matched actions texture_suffix))
     material sampler y_pos) w.
Proof.
  set (w1 := (sample_texture material texture_name y_pos w).2).
  transitivity
    ((texture_suffix ← getitem (Str.rsplit "_" 1 texture_name) 1;
      for_each_with actions texture_suffix
        (apply_key material (expressions w) y_pos);;
      mret ()) w1); [reflexivity|].
  transitivity
    ((texture_suffix ← getitem (Str.rsplit "_" 1 texture_name) 1;
      run_actions (flat_map snd (matched actions texture_suffix))
        material (expressions w) y_pos) w1); [|reflexivity].
  rewrite !bind_unfold.
  destruct (getitem _ 1 w1) as [[s|e] w2]; [|done].
  rewrite bind_unfold, for_keys_matched, bind_unfold.
  by destruct (run_actions _ _ _ _ _) as [[[]|e] w3].
Qed.
Module Occurrences.
Import Str StrFacts.

Lemma drop_nil (n : nat) : drop n "" = "".
Proof. by destruct n. Qed.

Lemma drop_drop (m n : nat) (s : string) : drop n (drop m s) = drop (m + n) s.
Proof.
  revert s. induction m as [|m IH]; intros s; [done|].
  destruct s as [|c s]; [by rewrite drop_nil|]. apply IH.
Qed.

Lemma drop_succ (p : nat) (s t : string) (c : ascii) :
  drop p s = String c t → drop (S p) s = t.
Proof.
  intros H. replace (S p) with (p + 1)%nat by lia.
  by rewrite <- drop_drop, H.
Qed.

Lemma drop_app_le (d : nat) (s t : string) :
  (d ≤ String.length s)%nat → drop d (s +:+ t) = drop d s +:+ t.
Proof.
  revert s. induction d as [|d IH]; intros s Hd; [done|].
  destruct s as [|c s]; simpl in Hd; [lia|].
  rewrite app_cons. simpl. apply IH. lia.
Qed.

Lemma length_drop (d : nat) (s : string) :
  String.length (drop d s) = (String.length s - d)%nat.
Proof.
  revert s. induction d as [|d IH]; intros s; simpl; [lia|].
  destruct s as [|c s]; [done|]. simpl. apply IH.
Qed.

Lemma startswith_shorter (p u t : string) :
  startswith p (u +:+ t) = true → (String.length u ≤ String.length p)%nat →
  startswith u p = true.
Proof.
  revert p. induction u as [|a u IH]; intros p Hp Hlen; [done|].
  destruct p as [|b p]; simpl in Hlen; [lia|].
  rewrite app_cons in Hp. simpl in Hp. simpl.
  destruct (Ascii.eqb b a) eqn:Hab; [|done].
  apply Ascii.eqb_eq in Hab as ->. rewrite Ascii.eqb_refl.
  apply IH; [done|lia].
Qed.

(** Two occurrences less than [len(old)] apart make a border of [old]. *)
Lemma overlap_border (old s : string) (q d : nat) :
  occurs_at old s q = true → occurs_at old s (q + d) = true →
  (d ≤ String.length old)%nat →
  startswith (drop d old) old = true.
Proof.
  unfold occurs_at. intros [t Hq]%startswith_spec Hqd Hd.
  rewrite <- drop_drop, Hq, drop_app_le in Hqd by done.
  eapply startswith_shorter; [done|]. rewrite length_drop. lia.
Qed.

Lemma unbordered_spec (old : string) (d : nat) :
  unbordered old = true → (0 < d < String.length old)%nat →
  startswith (drop d old) old = false.
Proof.
  unfold unbordered. rewrite forallb_forall. intros H Hd.
  apply negb_true_iff, H, in_seq. lia.
Qed.

Lemma covered_spec (old s : string) (i : nat) :
  covered old s i = true ↔
  ∃ j, (j ≤ i < j + String.length old)%nat ∧ occurs_at old s j = true.
Proof.
  unfold covered. rewrite existsb_exists. split.
  - intros (j & Hj%in_seq & Hocc). exists j. split; [lia|done].
  - intros (j & Hj & Hocc). exists j. split; [apply in_seq; lia|done].
Qed.

Lemma replace_nonempty (old new s : string) :
  old ≠ "" → replace old new s = replace_from old new 0 s.
Proof. by destruct old. Qed.

Section greedy.
Variables (old s : string).
Hypothesis old_unbordered : unbordered old = true.
Hypothesis old_nonempty : old ≠ "".

Local Abbreviation n := (String.length old).

Lemma length_old_pos : (0 < n)%nat.
Proof. destruct old; simpl; [done|lia]. Qed.

Lemma no_overlap (q p : nat) :
  occurs_at old s q = true → occurs_at old s p = true →
  (q < p < q + n)%nat → False.
Proof.
  intros Hq Hp Hqp. replace p with (q + (p - q))%nat in Hp by lia.
  pose proof (overlap_border _ _ _ _ Hq Hp ltac:(lia)) as Hb.
  rewrite unbordered_spec in Hb; [done|done|lia].
Qed.

(** The scan of [replace] at position [p] of [s], with [k] characters of
    the last occurrence still to skip, keeps exactly the characters that
    lie in no occurrence. *)
Lemma replace_from_keep (t : string) (p k : nat) :
  drop p s = t →
  (∀ j, (j < p)%nat → occurs_at old s j = true → (j + n ≤ p + k)%nat) →
  (∀ i, (p ≤ i < p + k)%nat → covered old s i = true) →
  ((0 < k)%nat → (k < n ≤ p + k)%nat ∧ occurs_at old s (p + k - n) = true) →
  replace_from old "" k t = keep_from (fun i => negb (covered old s i)) p t.
Proof.
  pose proof length_old_pos as Hn.
  revert p k. induction t as [|c t IH]; intros p k Hdrop Hbefore Hskip Hin; [done|].
  pose proof (drop_succ _ _ _ _ Hdrop) as Hdrop'.
  simpl keep_from. destruct k as [|k]; simpl replace_from.
  - destruct (startswith old (String c t)) eqn:Hst.
    + assert (occurs_at old s p = true) as Hp by (unfold occurs_at; by rewrite Hdrop).
      assert (covered old s p = true) as ->.
      { apply covered_spec. exists p. split; [lia|done]. }
      simpl negb. cbv iota. rewrite app_nil_l. apply IH; [done|..].
      * intros j Hj Hocc. destruct (decide (j = p)) as [->|]; [lia|].
        specialize (Hbefore j ltac:(lia) Hocc). lia.
      * intros i Hi. apply covered_spec. exists p. split; [lia|done].
      * intros Hk. split; [lia|]. by replace (S p + (n - 1) - n)%nat with p by lia.
    + assert (covered old s p = false) as ->.
      { apply not_true_is_false. intros (j & Hj & Hocc)%covered_spec.
        destruct (decide (j = p)) as [->|].
        - unfold occurs_at in Hocc. rewrite Hdrop in Hocc. congruence.
        - specialize (Hbefore j ltac:(lia) Hocc). lia. }
      simpl negb. cbv iota. f_equal. apply IH; [done|..].
      * intros j Hj Hocc. destruct (decide (j = p)) as [->|].
        -- unfold occurs_at in Hocc. rewrite Hdrop in Hocc. congruence.
        -- specialize (Hbefore j ltac:(lia) Hocc). lia.
      * intros i Hi. lia.
      * intros Hk. lia.
  - rewrite (Hskip p) by lia. simpl negb. cbv iota.
    destruct (Hin ltac:(lia)) as [Hkn Hq].
    apply IH; [done|..].
    + intros j Hj Hocc. destruct (decide (j = p)) as [->|].
      * exfalso. apply (no_overlap (p + S k - n) p Hq Hocc). lia.
      * specialize (Hbefore j ltac:(lia) Hocc). lia.
    + intros i Hi. apply Hskip. lia.
    + intros Hk. split; [lia|]. by replace (S p + k - n)%nat with (p + S k - n)%nat by lia.
Qed.

Lemma replace_deletes_occurrences : replace old "" s = delete_occurrences old s.
Proof.
  rewrite replace_nonempty by done.
  apply replace_from_keep; [done|intros; lia..].
Qed.

End greedy.
End Occurrences.
(** ** The script's functions *)

Lemma extends_refl (w : World) : extends w w.
Proof. repeat split; [lia|]. exists []. by rewrite app_nil_r. Qed.

Lemma extends_trans (w1 w2 w3 : World) :
  extends w1 w2 → extends w2 w3 → extends w1 w3.
Proof.
  intros (Hr1 & Hs1 & He1 & rs1 & Hl1) (Hr2 & Hs2 & He2 & rs2 & Hl2).
  repeat split; [congruence|congruence|lia|].
  exists (rs1 ++ rs2). by rewrite Hl2, Hl1, (assoc_L (++)).
Qed.

Lemma request_extends (r : Request) (w : World) :
  request r w = (Ok (), (request r w).2) ∧ extends w (request r w).2.
Proof. split; [done|]. repeat split; simpl; [lia|by eexists]. Qed.

Lemma execute_extends action material sampler y_pos w :
  extends w (execute action material sampler y_pos w).2.
Proof.
  destruct action as [out prop|out prop scale|prop value|ty]; simpl.
  - apply request_extends.
  - repeat split; simpl; [lia|]. eexists. by rewrite <- !(assoc_L (++)).
  - destruct material; [apply request_extends|apply extends_refl].
  - apply request_extends.
Qed.

Lemma execute_some action m sampler y_pos w :
  (execute action (Some m) sampler y_pos w).1 = Ok ().
Proof. by destruct action. Qed.

Lemma execute_not_index_error action material sampler y_pos w :
  (execute action material sampler y_pos w).1 ≠ Raise IndexError.
Proof. by destruct action, material. Qed.

Lemma run_actions_cons action acts material sampler y_pos w :
  run_actions (action :: acts) material sampler y_pos w =
  (execute action material sampler y_pos;;
   run_actions acts material sampler y_pos) w.
Proof. reflexivity. Qed.

Lemma run_actions_extends acts material sampler y_pos w :
  extends w (run_actions acts material sampler y_pos w).2.
Proof.
  revert w. induction acts as [|a acts IH]; intros w; [apply extends_refl|].
  rewrite run_actions_cons, bind_unfold.
  pose proof (execute_extends a material sampler y_pos w) as He.
  destruct (execute a material sampler y_pos w) as [[[]|e] w1]; [|done].
  eapply extends_trans; [exact He|apply IH].
Qed.

Lemma run_actions_some acts m sampler y_pos w :
  (run_actions acts (Some m) sampler y_pos w).1 = Ok ().
Proof.
  revert w. induction acts as [|a acts IH]; intros w; [done|].
  rewrite run_actions_cons, bind_unfold.
  pose proof (execute_some a m sampler y_pos w) as He.
  destruct (execute a (Some m) sampler y_pos w) as [[[]|e] w1]; [apply IH|done].
Qed.

Lemma run_actions_not_index_error acts material sampler y_pos w :
  (run_actions acts material sampler y_pos w).1 ≠ Raise IndexError.
Proof.
  revert w. induction acts as [|a acts IH]; intros w; [done|].
  rewrite run_actions_cons, bind_unfold.
  pose proof (execute_not_index_error a material sampler y_pos w) as He.
  destruct (execute a material sampler y_pos w) as [[[]|e] w1]; [apply IH|done].
Qed.

(** *** Suffix extraction *)

Lemma rpartition_char (c : ascii) (a b : string) :
  Str.contains (String c "") b = false →
  Str.rpartition (String c "") (a +:+ String c b) = Some (a, b).
Proof.
  intros Hb. induction a as [|x a IH].
  - rewrite StrFacts.app_nil_l. simpl Str.rpartition.
    apply StrFacts.rpartition_None in Hb as ->; [|done].
    simpl. by rewrite Ascii.eqb_refl.
  - rewrite StrFacts.app_cons. simpl Str.rpartition. by rewrite IH.
Qed.

Lemma rsplit_suffix (before suffix : string) :
  Str.contains "_" suffix = false →
  Str.rsplit "_" 1 (before +:+ "_" +:+ suffix) = [before; suffix].
Proof.
  intros H. simpl Str.rsplit.
  change ("_" +:+ suffix) with (String "_" suffix).
  by rewrite rpartition_char.
Qed.

Lemma getitem_suffix (texture_name : string) (w : World) :
  Str.contains "_" texture_name = true →
  ∃ before suffix,
    texture_name = before +:+ "_" +:+ suffix ∧
    Str.contains "_" suffix = false ∧
    Str.rsplit "_" 1 texture_name = [before; suffix] ∧
    getitem (Str.rsplit "_" 1 texture_name) 1 w = (Ok suffix, w).
Proof.
  intros H. destruct (StrFacts.rsplit_1_contains "_" texture_name) as
    (before & suffix & Hsplit & Hname & Hsuffix); [done..|].
  exists before, suffix. repeat split; [done..|]. by rewrite Hsplit.
Qed.

Lemma getitem_no_suffix (texture_name : string) (w : World) :
  Str.contains "_" texture_name = false →
  getitem (Str.rsplit "_" 1 texture_name) 1 w = (Raise IndexError, w).
Proof. intros H. by rewrite StrFacts.rsplit_1_not_contains. Qed.

(** *** [apply_texture] *)

Lemma apply_texture_suffix material texture_name before suffix y_pos w :
  Str.rsplit "_" 1 texture_name = [before; suffix] →
  apply_texture material texture_name y_pos w =
  (sampler ← sample_texture material texture_name y_pos;
   run_actions (flat_map snd (matched actions suffix)) material sampler y_pos) w.
Proof.
  intros Hsplit. rewrite apply_texture_unfold, !bind_unfold, sample_texture_run.
  by rewrite Hsplit.
Qed.

Lemma apply_texture_malformed material texture_name y_pos w :
  Str.contains "_" texture_name = false →
  apply_texture material texture_name y_pos w =
  (Raise IndexError, (sample_texture material texture_name y_pos w).2).
Proof.
  intros H. rewrite apply_texture_unfold, bind_unfold, sample_texture_run.
  cbv beta iota. by rewrite bind_unfold, getitem_no_suffix.
Qed.

(** *** The keys that match *)

Lemma matched_sublist items texture_suffix :
  sublist (matched items texture_suffix) items.
Proof.
  revert texture_suffix. induction items as [|item items IH]; intros s; simpl.
  - constructor.
  - destruct (Str.contains item.1 s); [apply sublist_skip|apply sublist_cons]; apply IH.
Qed.

Lemma matched_keys_NoDup items texture_suffix :
  NoDup items.*1 → NoDup (matched items texture_suffix).*1.
Proof.
  intros Hnd. eapply sublist_NoDup; [exact Hnd|].
  apply fmap_sublist, matched_sublist.
Qed.

Lemma matched_lookup items texture_suffix i key acts :
  NoDup items.*1 → items !! i = Some (key, acts) →
  (key, acts) ∈ matched items texture_suffix ↔
  Str.contains key (working (take i items.*1) texture_suffix) = true.
Proof.
  revert texture_suffix i.
  induction items as [|[key0 acts0] items IH]; intros s i Hnd Hi; [done|].
  rewrite fmap_cons in Hnd. apply NoDup_cons in Hnd as [Hkey0 Hnd].
  assert (∀ s', (key0, acts0) ∉ matched items s') as Hfresh.
  { intros s' Hin. apply Hkey0.
    eapply (list_elem_of_fmap_2 fst) in Hin. simpl in Hin.
    eapply elem_of_sublist; [exact Hin|]. apply fmap_sublist, matched_sublist. }
  simpl matched. simpl fst. destruct i as [|i].
  - injection Hi as -> ->. simpl.
    destruct (Str.contains key s) eqn:Hc.
    + split; [done|]. intros _. apply elem_of_cons. by left.
    + split; [|done]. by intros ?%Hfresh.
  - simpl in Hi. rewrite fmap_cons. simpl take. rewrite working_cons. simpl fst.
    assert (key ≠ key0) as Hne.
    { intros ->. apply Hkey0. apply list_elem_of_fmap. exists (key0, acts).
      split; [done|]. by eapply list_elem_of_lookup_2. }
    destruct (Str.contains key0 s) eqn:Hc.
    + rewrite elem_of_cons, <- (IH _ i) by done.
      split; [intros [[= ? ?]|?]; done|by right].
    + rewrite (StrFacts.replace_not_contains _ _ _ Hc). by apply IH.
Qed.

Lemma actions_keys :
  actions.*1 = ["DA"; "D"; "AO"; "A"; "N"; "M"; "R"; "S"; "E"].
Proof. reflexivity. Qed.

Lemma actions_keys_NoDup : NoDup actions.*1.
Proof. rewrite actions_keys. compute_done. Qed.

(** The loop visits the items of the table; the value of an item is what
    [actions[key]] evaluates to, the keys being distinct. *)
Lemma dict_get_item {V} (d : list (string * V)) (key : string) (v : V) :
  NoDup d.*1 → (key, v) ∈ d → dict_get d key = Some v.
Proof.
  induction d as [|[k v'] d IH]; intros Hnd Hin; [by apply elem_of_nil in Hin|].
  rewrite fmap_cons in Hnd. apply NoDup_cons in Hnd as [Hk Hnd]. simpl.
  apply elem_of_cons in Hin as [[= -> ->]|Hin].
  - by rewrite String.eqb_refl.
  - destruct (String.eqb k key) eqn:Heq; [|by apply IH].
    apply String.eqb_eq in Heq as ->. exfalso. apply Hk.
    by apply (list_elem_of_fmap_2 fst) in Hin.
Qed.

Lemma actions_getitem (key : string) (acts : list Action) :
  (key, acts) ∈ actions → dict_get actions key = Some acts.
Proof. apply dict_get_item, actions_keys_NoDup. Qed.

Lemma matched_none items texture_suffix :
  (∀ key, key ∈ items.*1 → Str.contains key texture_suffix = false) →
  matched items texture_suffix = [].
Proof.
  induction items as [|[key acts] items IH]; intros H; [done|].
  simpl. rewrite (H key) by (rewrite fmap_cons; apply elem_of_cons; by left).
  apply IH. intros key' Hin. apply H. rewrite fmap_cons. apply elem_of_cons. by right.
Qed.

(** ** The suffix dispatch of [apply_texture] *)

(** C1, as amended.  When [texture_name] contains an underscore, the suffix
    is the text after the last underscore, and [apply_texture] samples the
    texture and then runs the actions of the matching keys, in the order of
    the table.  A key matches when it is a substring of the working suffix
    at its turn, which is the suffix with every earlier key of the table
    replaced by the empty string; it need not match when it is a substring
    of the suffix as extracted. *)
Theorem apply_texture_dispatch material texture_name y_pos w :
  Str.contains "_" texture_name = true →
  ∃ before texture_suffix,
    texture_name = before +:+ "_" +:+ texture_suffix ∧
    Str.contains "_" texture_suffix = false ∧
    apply_texture material texture_name y_pos w =
      (sampler ← sample_texture material texture_name y_pos;
       run_actions (flat_map snd (matched actions texture_suffix))
         material sampler y_pos) w ∧
    sublist (matched actions texture_suffix) actions ∧
    ∀ i key acts, actions !! i = Some (key, acts) →
      (key, acts) ∈ matched actions texture_suffix ↔
      Str.contains key (working (take i actions.*1) texture_suffix) = true.
Proof.
  intros Hname.
  destruct (getitem_suffix texture_name w Hname) as
    (before & suffix & Heq & Hsuffix & Hsplit & _).
  exists before, suffix. split_and!; [done|done|..].
  - by eapply apply_texture_suffix.
  - apply matched_sublist.
  - intros i key acts Hi. by apply matched_lookup; [apply actions_keys_NoDup|].
Qed.

Lemma apply_texture_dispatch_witness :
  Str.contains "_" "/Game/T_Rock_DA" = true ∧
  ∃ before texture_suffix,
    "/Game/T_Rock_DA" = before +:+ "_" +:+ texture_suffix ∧
    Str.contains "_" texture_suffix = false ∧
    apply_texture (Some rock_material) "/Game/T_Rock_DA" 0 rock_project =
      (sampler ← sample_texture (Some rock_material) "/Game/T_Rock_DA" 0;
       run_actions (flat_map snd (matched actions texture_suffix))
         (Some rock_material) sampler 0) rock_project ∧
    sublist (matched actions texture_suffix) actions ∧
    ∀ i key acts, actions !! i = Some (key, acts) →
      (key, acts) ∈ matched actions texture_suffix ↔
      Str.contains key (working (take i actions.*1) texture_suffix) = true.
Proof.
  split; [reflexivity|].
  apply (apply_texture_dispatch (Some rock_material) "/Game/T_Rock_DA" 0 rock_project).
  reflexivity.
Defined.

(** C1, as stated, fails for the suffix [DA]: the key [A] is a substring
    of it, and none of the requests of the actions registered under [A]
    that differ from those of [DA] is issued. *)
Lemma apply_texture_DA_skips_A :
  Str.contains "_" "/Game/T_Rock_DA" = true ∧
  Str.rsplit "_" 1 "/Game/T_Rock_DA" = ["/Game/T_Rock"; "DA"] ∧
  Str.contains "A" "DA" = true ∧
  dict_get actions "A" = Some [
    CreateConnection "R" MP_OPACITY;
    SetSamplerType SAMPLERTYPE_GRAYSCALE;
    SetProperty "blend_mode" (VBlendMode BLEND_TRANSLUCENT)] ∧
  (apply_texture (Some rock_material) "/Game/T_Rock_DA" 0 rock_project).1 = Ok () ∧
  log (apply_texture (Some rock_material) "/Game/T_Rock_DA" 0 rock_project).2 = [
    ReqCreateMaterialExpression
      (Some rock_material) MaterialExpressionTextureSample (-500) 0;
    ReqSetExpressionProperty 0%nat "texture"
      (VObject (Some {| get_path_name := "/Game/T_Rock_DA"; get_class := Texture |}));
    ReqConnectMaterialProperty 0%nat "RGB" MP_BASE_COLOR;
    ReqConnectMaterialProperty 0%nat "A" MP_OPACITY;
    ReqSetMaterialProperty rock_material "blend_mode" (VBlendMode BLEND_TRANSLUCENT)] ∧
  (ReqConnectMaterialProperty 0%nat "R" MP_OPACITY
     ∉ log (apply_texture (Some rock_material) "/Game/T_Rock_DA" 0 rock_project).2) ∧
  (ReqSetExpressionProperty 0%nat "sampler_type" (VSamplerType SAMPLERTYPE_GRAYSCALE)
     ∉ log (apply_texture (Some rock_material) "/Game/T_Rock_DA" 0 rock_project).2).
Proof.
  assert (log (apply_texture (Some rock_material) "/Game/T_Rock_DA" 0 rock_project).2 = [
    ReqCreateMaterialExpression
      (Some rock_material) MaterialExpressionTextureSample (-500) 0;
    ReqSetExpressionProperty 0%nat "texture"
      (VObject (Some {| get_path_name := "/Game/T_Rock_DA"; get_class := Texture |}));
    ReqConnectMaterialProperty 0%nat "RGB" MP_BASE_COLOR;
    ReqConnectMaterialProperty 0%nat "A" MP_OPACITY;
    ReqSetMaterialProperty rock_material "blend_mode" (VBlendMode BLEND_TRANSLUCENT)])
    as Hlog by (by vm_compute).
  split_and!; [by vm_compute..|exact Hlog| |]; rewrite Hlog;
    intros Hin; repeat (apply elem_of_cons in Hin as [Hin|Hin]; [discriminate Hin|]);
    by apply elem_of_nil in Hin.
Qed.

(** C3.  [apply_texture] raises [IndexError], the failure of
    [texture_name.rsplit('_', 1)[1]] on a malformed name, exactly when
    [texture_name] contains no underscore; when it contains one, the
    suffix extraction succeeds and yields the text after the last
    underscore. *)
Theorem apply_texture_index_error material texture_name y_pos w :
  ((apply_texture material texture_name y_pos w).1 = Raise IndexError ↔
   Str.contains "_" texture_name = false) ∧
  (Str.contains "_" texture_name = true ↔
   ∃ before suffix,
     texture_name = before +:+ "_" +:+ suffix ∧
     Str.contains "_" suffix = false ∧
     getitem (Str.rsplit "_" 1 texture_name) 1 w = (Ok suffix, w)).
Proof.
  split; split.
  - intros Hraise. destruct (Str.contains "_" texture_name) eqn:Hname; [|done].
    destruct (getitem_suffix texture_name w Hname) as
      (before & suffix & _ & _ & Hsplit & _).
    rewrite (apply_texture_suffix _ _ _ _ _ _ Hsplit), bind_unfold,
      sample_texture_run in Hraise.
    by apply run_actions_not_index_error in Hraise.
  - intros Hname. by rewrite apply_texture_malformed.
  - intros Hname. destruct (getitem_suffix texture_name w Hname) as
      (before & suffix & ? & ? & _ & ?).
    by exists before, suffix.
  - intros (before & suffix & -> & _ & _). apply StrFacts.contains_spec.
    by exists before, suffix.
Qed.

(** C8.  Matching is destructive.  When a key matches, the loop goes on
    with the suffix in which the key has been replaced by the empty
    string, and that replacement deletes every character lying in an
    occurrence of the key in the working suffix.  The actions run by a
    call are those of a duplicate-free subsequence of the table's items,
    so no key's actions run twice; and for the suffix [DA] they are the
    three actions of the key [DA] alone. *)
Theorem suffix_matching_is_destructive :
  (∀ material sampler y_pos key acts items texture_suffix w,
     Str.contains key texture_suffix = true →
     for_each_with ((key, acts) :: items) texture_suffix
       (apply_key material sampler y_pos) w =
     (run_actions acts material sampler y_pos;;
      for_each_with items (Str.replace key "" texture_suffix)
        (apply_key material sampler y_pos)) w) ∧
  (∀ key texture_suffix, key ∈ actions.*1 →
     Str.replace key "" texture_suffix = delete_occurrences key texture_suffix) ∧
  (∀ material before texture_suffix y_pos w,
     Str.contains "_" texture_suffix = false →
     ∃ ran,
       sublist ran actions ∧ NoDup ran.*1 ∧
       apply_texture material (before +:+ "_" +:+ texture_suffix) y_pos w =
       (sampler ← sample_texture material (before +:+ "_" +:+ texture_suffix) y_pos;
        run_actions (flat_map snd ran) material sampler y_pos) w) ∧
  (∀ material before y_pos w,
     apply_texture material (before +:+ "_DA") y_pos w =
     (sampler ← sample_texture material (before +:+ "_DA") y_pos;
      run_actions [CreateConnection "RGB" MP_BASE_COLOR;
                   CreateConnection "A" MP_OPACITY;
                   SetProperty "blend_mode" (VBlendMode BLEND_TRANSLUCENT)]
        material sampler y_pos) w).
Proof.
  split_and!.
  - intros material sampler y_pos key acts items s w Hc.
    rewrite for_each_with_cons, apply_key_match, !bind_unfold by done.
    destruct (run_actions acts material sampler y_pos w) as [[[]|e] w1]; [|done].
    by rewrite ret_unfold.
  - intros key s Hkey. rewrite actions_keys in Hkey.
    apply Occurrences.replace_deletes_occurrences.
    + repeat (apply elem_of_cons in Hkey as [->|Hkey]; [reflexivity|]).
      by apply elem_of_nil in Hkey.
    + intros ->. repeat (apply elem_of_cons in Hkey as [?|Hkey]; [done|]).
      by apply elem_of_nil in Hkey.
  - intros material before s y_pos w Hs. exists (matched actions s). split_and!.
    + apply matched_sublist.
    + apply matched_keys_NoDup, actions_keys_NoDup.
    + by apply apply_texture_suffix with before, rsplit_suffix.
  - intros material before y_pos w.
    by rewrite (apply_texture_suffix _ _ before "DA") by by apply rsplit_suffix.
Qed.

(** C9.  Whatever the name, [apply_texture] begins by creating a texture
    sample at [(-500, y_pos)] and assigning the loaded texture to it, before
    the suffix is looked at; when the name is malformed or no key of the
    table is a substring of the suffix, these two requests are all the call
    issues, so the sample stays unconnected. *)
Theorem apply_texture_always_samples material texture_name y_pos w :
  ∃ rest,
    log (apply_texture material texture_name y_pos w).2 =
      log w ++
      ReqCreateMaterialExpression
        material MaterialExpressionTextureSample (-500) y_pos ::
      ReqSetExpressionProperty
        (expressions w) "texture" (VObject (registry w !! texture_name)) ::
      rest ∧
    ((∀ before suffix, Str.rsplit "_" 1 texture_name = [before; suffix] →
        ∀ key, key ∈ actions.*1 → Str.contains key suffix = false) →
     rest = []).
Proof.
  destruct (Str.contains "_" texture_name) eqn:Hname.
  - destruct (getitem_suffix texture_name w Hname) as
      (before & suffix & _ & _ & Hsplit & _).
    rewrite (apply_texture_suffix _ _ _ _ _ _ Hsplit), bind_unfold,
      sample_texture_run.
    cbv beta iota. set (w1 := Build_World _ _ _ _).
    destruct (run_actions_extends (flat_map snd (matched actions suffix))
                material (expressions w) y_pos w1) as (_ & _ & _ & rs & Hlog).
    exists rs. split.
    + rewrite Hlog. simpl. by rewrite <- (assoc_L (++)).
    + intros Hnone. rewrite (matched_none actions suffix) in Hlog by eauto.
      simpl in Hlog. symmetry in Hlog. rewrite <- (app_nil_r (log w ++ _)) in Hlog at 2.
      by apply app_inv_head in Hlog.
  - exists []. split; [|done].
    rewrite apply_texture_malformed, sample_texture_run by done. done.
Qed.

Lemma apply_texture_always_samples_witness :
  ∃ rest,
    log (apply_texture (Some rock_material) "/Game/T_Rock_X" 250 rock_project).2 =
      log rock_project ++
      ReqCreateMaterialExpression
        (Some rock_material) MaterialExpressionTextureSample (-500) 250 ::
      ReqSetExpressionProperty
        (expressions rock_project) "texture"
        (VObject (registry rock_project !! "/Game/T_Rock_X")) ::
      rest ∧
    rest = [].
Proof.
  destruct (apply_texture_always_samples
              (Some rock_material) "/Game/T_Rock_X" 250 rock_project)
    as (rest & Hlog & Hrest).
  exists rest. split; [exact Hlog|]. apply Hrest.
  intros before suffix [= <- <-] key Hkey. rewrite actions_keys in Hkey.
  repeat (apply elem_of_cons in Hkey as [->|Hkey]; [reflexivity|]).
  by apply elem_of_nil in Hkey.
Defined.

(** ** The suffix table *)

(** C5, as amended.  The table has exactly nine keys, all different:
    [DA], [D], [AO], [A], [N], [M], [R], [S] and [E]. *)
Theorem actions_has_nine_keys :
  actions.*1 = ["DA"; "D"; "AO"; "A"; "N"; "M"; "R"; "S"; "E"] ∧
  length actions = 9%nat ∧
  NoDup actions.*1.
Proof.
  split_and!; [apply actions_keys|reflexivity|apply actions_keys_NoDup].
Qed.

(** C5, as stated, fails: the number of keys is not eight. *)
Lemma actions_not_eight_keys :
  length actions.*1 = 9%nat ∧ (length actions.*1 =? 8)%nat = false.
Proof. split; reflexivity. Qed.

(** C6.  Under [D] the table has one action, which connects the sampler's
    [RGB] output to the base colour; under [DA] it has that action and two
    more, which connect the [A] output to the opacity and set the
    material's blend mode to translucent. *)
Theorem actions_D_and_DA :
  dict_get actions "D" = Some [CreateConnection "RGB" MP_BASE_COLOR] ∧
  dict_get actions "DA" = Some [
    CreateConnection "RGB" MP_BASE_COLOR;
    CreateConnection "A" MP_OPACITY;
    SetProperty "blend_mode" (VBlendMode BLEND_TRANSLUCENT)] ∧
  (∀ acts material sampler y_pos w,
     dict_get actions "D" = Some acts →
     (run_actions acts (Some material) sampler y_pos w).1 = Ok () ∧
     log (run_actions acts (Some material) sampler y_pos w).2 =
       log w ++ [ReqConnectMaterialProperty sampler "RGB" MP_BASE_COLOR]) ∧
  (∀ acts material sampler y_pos w,
     dict_get actions "DA" = Some acts →
     (run_actions acts (Some material) sampler y_pos w).1 = Ok () ∧
     log (run_actions acts (Some material) sampler y_pos w).2 =
       log w ++ [ReqConnectMaterialProperty sampler "RGB" MP_BASE_COLOR;
                 ReqConnectMaterialProperty sampler "A" MP_OPACITY;
                 ReqSetMaterialProperty material "blend_mode"
                   (VBlendMode BLEND_TRANSLUCENT)]).
Proof.
  split_and!; [reflexivity|reflexivity|..].
  - intros acts material sampler y_pos w [= <-]. split; [reflexivity|].
    reflexivity.
  - intros acts material sampler y_pos w [= <-]. split; [reflexivity|].
    simpl. by rewrite <- !(assoc_L (++)).
Qed.

(** ** [create_empty_material] *)

Section create_empty_material.
Context `{Editor}.

Lemma create_empty_material_unfold name w :
  create_empty_material name w =
  match registry w !! package_name_of name w with
  | Some asset => (Ok (Some asset), w)
  | None =>
      (path ← getitem (Str.rsplit "/" 1 (package_name_of name w)) 0;
       asset_name ← getitem (Str.rsplit "/" 1 (package_name_of name w)) 1;
       AssetTools.create_asset asset_name path) w
  end.
Proof.
  unfold create_empty_material, package_name_of.
  rewrite bind_unfold. unfold AssetToolsHelpers.get_asset_tools.
  rewrite ret_unfold. cbv beta iota.
  rewrite bind_unfold. unfold AssetTools.create_unique_asset_name at 1.
  destruct (unique_asset_name (registry w) name "") as [package_name asset_name].
  cbv beta iota. simpl fst.
  rewrite bind_unfold. unfold EditorAssetLibrary.does_asset_exist at 1.
  unfold load_asset.
  destruct (registry w !! package_name) as [asset|] eqn:Hlookup.
  - rewrite bool_decide_eq_true_2 by by eexists.
    change (negb true) with false. cbv beta iota. by rewrite Hlookup.
  - rewrite bool_decide_eq_false_2 by (by intros [? ?]). reflexivity.
Qed.

Lemma create_empty_material_existing name w asset :
  registry w !! package_name_of name w = Some asset →
  create_empty_material name w = (Ok (Some asset), w).
Proof. intros Hlookup. by rewrite create_empty_material_unfold, Hlookup. Qed.

Lemma create_empty_material_new name w path asset_name :
  registry w !! package_name_of name w = None →
  Str.rsplit "/" 1 (package_name_of name w) = [path; asset_name] →
  create_empty_material name w = AssetTools.create_asset asset_name path w.
Proof.
  intros Hlookup Hsplit. rewrite create_empty_material_unfold, Hlookup, Hsplit.
  reflexivity.
Qed.

Lemma create_empty_material_malformed name w :
  registry w !! package_name_of name w = None →
  Str.contains "/" (package_name_of name w) = false →
  create_empty_material name w = (Raise IndexError, w).
Proof.
  intros Hlookup Hslash.
  rewrite create_empty_material_unfold, Hlookup.
  by rewrite StrFacts.rsplit_1_not_contains.
Qed.

End create_empty_material.

(** C2, as amended.  [create_empty_material(name)] returns the asset found
    at the package name computed by the editor and changes nothing when
    there is one.  When there is none and the package name contains a
    slash, it creates a material registered under that very name and
    returns it; calling it again then returns the same material and
    creates nothing provided the editor computes the same package name
    again.  When there is none and the package name contains no slash, it
    raises [IndexError] and creates nothing. *)
Theorem create_empty_material_find_or_create `{Editor} name w :
  (∀ asset, registry w !! package_name_of name w = Some asset →
     create_empty_material name w = (Ok (Some asset), w)) ∧
  (registry w !! package_name_of name w = None →
   Str.contains "/" (package_name_of name w) = true →
   ∃ material w' path asset_name,
     create_empty_material name w = (Ok (Some material), w') ∧
     material =
       {| get_path_name := package_name_of name w; get_class := Material |} ∧
     registry w' = <[package_name_of name w := material]> (registry w) ∧
     package_name_of name w = path +:+ "/" +:+ asset_name ∧
     log w' = log w ++ [ReqCreateAsset asset_name path] ∧
     (package_name_of name w' = package_name_of name w →
      create_empty_material name w' = (Ok (Some material), w'))) ∧
  (registry w !! package_name_of name w = None →
   Str.contains "/" (package_name_of name w) = false →
   create_empty_material name w = (Raise IndexError, w)).
Proof.
  split_and!; [apply create_empty_material_existing| |
               apply create_empty_material_malformed].
  intros Hlookup Hslash.
  destruct (StrFacts.rsplit_1_contains "/" _ ltac:(done) Hslash) as
    (path & asset_name & Hsplit & Hname & _).
  rewrite (create_empty_material_new _ _ _ _ Hlookup Hsplit).
  set (material :=
    {| get_path_name := package_name_of name w; get_class := Material |}).
  exists material,
    {| registry := <[package_name_of name w := material]> (registry w);
       selected := selected w; expressions := expressions w;
       log := log w ++ [ReqCreateAsset asset_name path] |},
    path, asset_name.
  split_and!; [|done..|].
  - subst material. unfold AssetTools.create_asset. cbv zeta.
    by rewrite <- Hname.
  - intros Hsame. apply create_empty_material_existing.
    rewrite Hsame. apply lookup_insert_eq.
Qed.

Lemma create_empty_material_find_or_create_witness :
  (∃ material w' path asset_name,
     @create_empty_material plain_editor "/Game/M_Rock" rock_project =
       (Ok (Some material), w') ∧
     material = {| get_path_name := "/Game/M_Rock"; get_class := Material |} ∧
     registry w' = <["/Game/M_Rock" := material]> (registry rock_project) ∧
     "/Game/M_Rock" = path +:+ "/" +:+ asset_name ∧
     log w' = log rock_project ++ [ReqCreateAsset asset_name path] ∧
     @create_empty_material plain_editor "/Game/M_Rock" w' =
       (Ok (Some material), w')) ∧
  @create_empty_material plain_editor "/Game/T_Rock_N" rock_project =
    (Ok (Some {| get_path_name := "/Game/T_Rock_N"; get_class := Texture |}),
     rock_project) ∧
  @create_empty_material plain_editor "M_Rock" rock_project =
    (Raise IndexError, rock_project).
Proof.
  split_and!.
  - destruct (proj1 (proj2 (@create_empty_material_find_or_create
                       plain_editor "/Game/M_Rock" rock_project))
                eq_refl eq_refl)
      as (material & w' & path & asset_name
          & Hrun & Hmat & Hreg & Hname & Hlog & Hagain).
    exists material, w', path, asset_name.
    split_and!; [exact Hrun|exact Hmat|exact Hreg|exact Hname|exact Hlog|].
    apply Hagain. reflexivity.
  - exact (proj1 (@create_empty_material_find_or_create
                    plain_editor "/Game/T_Rock_N" rock_project) _ eq_refl).
  - exact (proj2 (proj2 (@create_empty_material_find_or_create
                           plain_editor "M_Rock" rock_project))
             eq_refl eq_refl).
Defined.

(** C2, as stated, fails with an editor that avoids names in use: the
    second call with the same name computes another package name and
    creates a second material. *)
Lemma create_empty_material_twice_creates_two :
  let first := @create_empty_material renaming_editor "/Game/M_Rock" rock_project in
  let second := @create_empty_material renaming_editor "/Game/M_Rock" first.2 in
  first.1 = Ok (Some {| get_path_name := "/Game/M_Rock"; get_class := Material |}) ∧
  second.1 = Ok (Some {| get_path_name := "/Game/M_Rock1"; get_class := Material |}) ∧
  log second.2 = [ReqCreateAsset "M_Rock" "/Game"; ReqCreateAsset "M_Rock1" "/Game"] ∧
  size (registry second.2) = S (size (registry first.2)).
Proof. split_and!; by vm_compute. Qed.

(** ** [create_material_from_textures] *)

Lemma isinstance_spec (asset : UObject) (cls : UClass) :
  isinstance asset cls = true ↔ get_class asset = cls.
Proof. unfold isinstance. apply bool_decide_eq_true. Qed.

Lemma place_asset_texture material asset y_pos :
  get_class asset = Texture →
  place_asset material asset y_pos =
  (apply_texture material (get_path_name asset) y_pos;; mret (y_pos + 250)).
Proof.
  intros Hc%isinstance_spec. unfold place_asset. by rewrite Hc.
Qed.

Lemma place_asset_other material asset y_pos :
  get_class asset ≠ Texture → place_asset material asset y_pos = mret y_pos.
Proof.
  intros Hc. unfold place_asset.
  destruct (isinstance asset Texture) eqn:Hi; [|done].
  by apply isinstance_spec in Hi.
Qed.

Lemma for_each_cons {A} (x : A) (xs : list A) (body : A → M unit) :
  for_each (x :: xs) body = (body x;; for_each xs body).
Proof. reflexivity. Qed.

(** The loop over the selection, started at offset [y_pos]: the [i]-th
    texture is applied at [y_pos + 250 * i], other assets do nothing. *)
Lemma place_assets_from material assets y_pos w :
  for_each_with assets y_pos (place_asset material) w =
  (for_each
     (imap (fun i asset => (get_path_name asset, y_pos + 250 * Z.of_nat i))
        (textures_of assets))
     (fun call => apply_texture material call.1 call.2);;
   mret (y_pos + 250 * Z.of_nat (length (textures_of assets)))) w.
Proof.
  revert y_pos w. induction assets as [|asset assets IH]; intros y_pos w.
  - simpl. rewrite bind_unfold, !ret_unfold. do 2 f_equal. lia.
  - rewrite for_each_with_cons, bind_unfold. unfold textures_of.
    destruct (decide (get_class asset = Texture)) as [Hc|Hc].
    + rewrite filter_cons_True, imap_cons, for_each_cons by done.
      rewrite place_asset_texture, !bind_unfold by done. simpl fst; simpl snd.
      replace (y_pos + 250 * Z.of_nat 0) with y_pos by lia.
      destruct (apply_texture material (get_path_name asset) y_pos w)
        as [[[]|e] w1]; [|done].
      rewrite ret_unfold. cbv beta iota. rewrite IH, !bind_unfold.
      fold (textures_of assets).
      rewrite (imap_ext _
        ((fun i a => (get_path_name a, y_pos + 250 * Z.of_nat i)) ∘ S)).
      * destruct (for_each _ _ w1) as [[[]|e] w2]; [|done].
        rewrite !ret_unfold. do 2 f_equal. rewrite length_cons. lia.
      * intros i a _. unfold compose. f_equal. lia.
    + rewrite filter_cons_False by done.
      rewrite place_asset_other, ret_unfold by done. cbv beta iota. apply IH.
Qed.

Lemma sample_positions_app (rs1 rs2 : list Request) :
  sample_positions (rs1 ++ rs2) = sample_positions rs1 ++ sample_positions rs2.
Proof. apply omap_app. Qed.

Lemma execute_samples action material sampler y_pos w :
  sample_positions (log (execute action material sampler y_pos w).2) =
  sample_positions (log w).
Proof.
  destruct action as [out prop|out prop scale|prop value|ty]; simpl;
    try destruct material; simpl;
    rewrite ?sample_positions_app; simpl; by rewrite ?app_nil_r.
Qed.

Lemma run_actions_samples acts material sampler y_pos w :
  sample_positions (log (run_actions acts material sampler y_pos w).2) =
  sample_positions (log w).
Proof.
  revert w. induction acts as [|a acts IH]; intros w; [done|].
  rewrite run_actions_cons, bind_unfold.
  pose proof (execute_samples a material sampler y_pos w) as He.
  destruct (execute a material sampler y_pos w) as [[[]|e] w1]; [|done].
  by rewrite IH.
Qed.

(** Every call of [apply_texture], failed or not, creates one texture
    sample, at [(-500, y_pos)]. *)
Lemma apply_texture_samples material texture_name y_pos w :
  sample_positions (log (apply_texture material texture_name y_pos w).2) =
  sample_positions (log w) ++ [(-500, y_pos)].
Proof.
  rewrite apply_texture_unfold, bind_unfold, sample_texture_run. cbv beta iota.
  rewrite bind_unfold.
  destruct (getitem _ 1 _) as [[suffix|e] w1] eqn:Hget.
  - assert (w1 = (Build_World (registry w) (selected w) (S (expressions w))
        (log w ++ [ReqCreateMaterialExpression
             material MaterialExpressionTextureSample (-500) y_pos;
           ReqSetExpressionProperty (expressions w) "texture"
             (VObject (registry w !! texture_name))]))) as ->.
    { unfold getitem in Hget. by destruct (_ !! 1%nat); injection Hget. }
    rewrite run_actions_samples. simpl. by rewrite sample_positions_app.
  - unfold getitem in Hget. destruct (_ !! 1%nat); injection Hget as _ <-;
      simpl; by rewrite sample_positions_app.
Qed.

Lemma apply_texture_some_ok m texture_name y_pos w :
  Str.contains "_" texture_name = true →
  (apply_texture (Some m) texture_name y_pos w).1 = Ok ().
Proof.
  intros Hname. destruct (getitem_suffix texture_name w Hname) as
    (before & suffix & _ & _ & Hsplit & _).
  rewrite (apply_texture_suffix _ _ _ _ _ _ Hsplit), bind_unfold,
    sample_texture_run.
  apply run_actions_some.
Qed.

Lemma apply_texture_extends material texture_name y_pos w :
  extends w (apply_texture material texture_name y_pos w).2.
Proof.
  assert (extends w (sample_texture material texture_name y_pos w).2) as Hs.
  { rewrite sample_texture_run. repeat split; simpl; [lia|by eexists]. }
  destruct (Str.contains "_" texture_name) eqn:Hname.
  - destruct (getitem_suffix texture_name w Hname) as
      (before & suffix & _ & _ & Hsplit & _).
    rewrite (apply_texture_suffix _ _ _ _ _ _ Hsplit), bind_unfold.
    destruct (sample_texture _ _ _ w) as [[sampler|e] w1] eqn:Hrun; [|done].
    eapply extends_trans; [exact Hs|apply run_actions_extends].
  - by rewrite apply_texture_malformed.
Qed.

Lemma place_assets_ok m assets y_pos w :
  (∀ asset, asset ∈ assets → get_class asset = Texture →
     Str.contains "_" (get_path_name asset) = true) →
  ∃ y_pos' w',
    for_each_with assets y_pos (place_asset (Some m)) w = (Ok y_pos', w') ∧
    extends w w'.
Proof.
  revert y_pos w. induction assets as [|asset assets IH]; intros y_pos w Hnames.
  - exists y_pos, w. split; [done|apply extends_refl].
  - rewrite for_each_with_cons, bind_unfold.
    destruct (decide (get_class asset = Texture)) as [Hc|Hc].
    + rewrite place_asset_texture, bind_unfold by done.
      pose proof (apply_texture_some_ok m (get_path_name asset) y_pos w
        (Hnames asset ltac:(by left) Hc)) as Hok.
      pose proof (apply_texture_extends (Some m) (get_path_name asset) y_pos w) as Hext.
      destruct (apply_texture _ _ _ w) as [[[]|e] w1]; [|done].
      rewrite ret_unfold. cbv beta iota.
      destruct (IH (y_pos + 250) w1) as (y' & w' & Hrun & Hext').
      { intros a Ha. apply Hnames. by right. }
      exists y', w'. split; [done|]. by eapply extends_trans.
    + rewrite place_asset_other, ret_unfold by done. cbv beta iota.
      apply IH. intros a Ha. apply Hnames. by right.
Qed.

Lemma place_assets_samples material assets y_pos w y_pos' w' :
  for_each_with assets y_pos (place_asset material) w = (Ok y_pos', w') →
  sample_positions (log w') =
  sample_positions (log w) ++
  imap (fun i _ => (-500, y_pos + 250 * Z.of_nat i)) (textures_of assets).
Proof.
  revert y_pos w. induction assets as [|asset assets IH]; intros y_pos w.
  - intros [= _ <-]. by rewrite app_nil_r.
  - rewrite for_each_with_cons, bind_unfold. unfold textures_of.
    destruct (decide (get_class asset = Texture)) as [Hc|Hc].
    + rewrite filter_cons_True, imap_cons by done.
      rewrite place_asset_texture, bind_unfold by done.
      pose proof (apply_texture_samples material (get_path_name asset) y_pos w) as Hs.
      destruct (apply_texture _ _ _ w) as [[[]|e] w1]; [|done].
      simpl in Hs. rewrite ret_unfold. cbv beta iota. intros Hrun%IH.
      rewrite Hrun, Hs, <- (assoc_L (++)). f_equal. simpl. f_equal.
      * f_equal. lia.
      * apply imap_ext. intros i a _. unfold compose. f_equal. lia.
    + rewrite filter_cons_False by done.
      rewrite place_asset_other, ret_unfold by done. cbv beta iota. apply IH.
Qed.

Lemma finish_some m w :
  finish (Some m) w =
  (Ok (),
   {| registry := registry w; selected := selected w;
      expressions := expressions w;
      log := log w ++ [ReqRecompileMaterial (Some m);
                       ReqSaveAsset (get_path_name m) true;
                       ReqOpenEditorForAssets [Some m]] |}).
Proof.
  unfold finish. cbv [mbind M_bind mret M_ret
    MaterialEditingLibrary.recompile_material material_get_path_name
    EditorAssetLibrary.save_asset AssetToolsHelpers.get_asset_tools
    AssetTools.open_editor_for_assets request
    registry selected expressions log].
  by rewrite <- !(assoc_L (++)).
Qed.

Section create_material_from_textures.
Context `{Editor}.

Lemma create_empty_material_frame name w :
  selected (create_empty_material name w).2 = selected w ∧
  expressions (create_empty_material name w).2 = expressions w ∧
  sample_positions (log (create_empty_material name w).2) =
    sample_positions (log w).
Proof.
  rewrite create_empty_material_unfold.
  destruct (registry w !! _) as [asset|]; [done|].
  rewrite bind_unfold. destruct (getitem _ 0 w) as [[path|e] w1] eqn:H0.
  - assert (w1 = w) as ->.
    { unfold getitem in H0. by destruct (_ !! 0%nat); injection H0. }
    rewrite bind_unfold. destruct (getitem _ 1 w) as [[asset_name|e] w1] eqn:H1.
    + assert (w1 = w) as ->.
      { unfold getitem in H1. by destruct (_ !! 1%nat); injection H1. }
      simpl. rewrite sample_positions_app. simpl. by rewrite app_nil_r.
    + unfold getitem in H1. by destruct (_ !! 1%nat); injection H1 as _ <-.
  - unfold getitem in H0. by destruct (_ !! 0%nat); injection H0 as _ <-.
Qed.

Lemma create_material_from_textures_unfold name w :
  create_material_from_textures name w =
  (material ← create_empty_material name;
   for_each_with (selected w) 0 (place_asset material);;
   finish material) w.
Proof.
  unfold create_material_from_textures. rewrite !bind_unfold.
  pose proof (create_empty_material_frame name w) as (Hsel & _).
  destruct (create_empty_material name w) as [[material|e] w1]; [|done].
  simpl in Hsel. rewrite bind_unfold.
  change (EditorUtilityLibrary.get_selected_assets w1)
    with (Ok (selected w1), w1).
  cbv beta iota. by rewrite Hsel.
Qed.

End create_material_from_textures.

(** C4.  [create_material_from_textures] applies the selected textures in
    selection order, the [i]-th of them (counting from 0, textures only)
    at the vertical offset [250 * i]; accordingly, when the run succeeds,
    the texture samples it has created sit at [(-500, 0)], [(-500, 250)],
    [(-500, 500)] and so on, one per selected texture. *)
Theorem create_material_from_textures_layout `{Editor} name w :
  create_material_from_textures name w =
    (material ← create_empty_material name;
     for_each (layout (textures_of (selected w)))
       (fun call => apply_texture material call.1 call.2);;
     finish material) w ∧
  (∀ i asset, textures_of (selected w) !! i = Some asset →
     layout (textures_of (selected w)) !! i =
     Some (get_path_name asset, 250 * Z.of_nat i)) ∧
  (∀ w', create_material_from_textures name w = (Ok (), w') →
     sample_positions (log w') =
     sample_positions (log w) ++
     imap (fun i _ => (-500, 250 * Z.of_nat i)) (textures_of (selected w))).
Proof.
  split_and!.
  - rewrite create_material_from_textures_unfold, !bind_unfold.
    destruct (create_empty_material name w) as [[material|e] w1]; [|done].
    rewrite !bind_unfold, place_assets_from, bind_unfold. unfold layout.
    rewrite (imap_ext _
      (fun i asset => (get_path_name asset, 250 * Z.of_nat i)))
      by (intros; f_equal; lia).
    by destruct (for_each _ _ w1) as [[[]|e] w2].
  - intros i asset Hi. unfold layout. by rewrite list_lookup_imap, Hi.
  - intros w'. rewrite create_material_from_textures_unfold, bind_unfold.
    pose proof (create_empty_material_frame name w) as (_ & _ & Hs1).
    destruct (create_empty_material name w) as [[material|e] w1]; [|done].
    simpl in Hs1. rewrite bind_unfold.
    destruct (for_each_with _ _ _ w1) as [[y|e] w2] eqn:Hloop; [|done].
    apply place_assets_samples in Hloop.
    destruct material as [m|]; [|done].
    rewrite finish_some. intros [= <-]. simpl.
    rewrite sample_positions_app, Hloop, Hs1. simpl. by rewrite app_nil_r.
Qed.

Lemma create_material_from_textures_layout_witness :
  layout (textures_of (selected rock_project)) !! 1%nat =
    Some ("/Game/T_Rock_N", 250) ∧
  sample_positions
    (log (@create_material_from_textures plain_editor "/Game/M_Rock" rock_project).2) =
  [(-500, 0); (-500, 250)].
Proof.
  destruct (@create_material_from_textures_layout
              plain_editor "/Game/M_Rock" rock_project) as (_ & Hlayout & Hsamples).
  split.
  - exact (Hlayout 1%nat
             {| get_path_name := "/Game/T_Rock_N"; get_class := Texture |} eq_refl).
  - assert (@create_material_from_textures plain_editor "/Game/M_Rock" rock_project =
            (Ok (),
             (@create_material_from_textures plain_editor "/Game/M_Rock" rock_project).2))
      as Hrun by (vm_compute; reflexivity).
    exact (Hsamples _ Hrun).
Defined.

(** C7.  When the material can be found or created and every selected
    texture has an underscore in its name, [create_material_from_textures]
    returns normally, and what it does after the loop over the selection
    is exactly this, in this order: recompile the material, save the asset
    under the material's path name, open an editor for the material. *)
Theorem create_material_from_textures_finishes `{Editor} name w :
  is_Some (registry w !! package_name_of name w) ∨
    Str.contains "/" (package_name_of name w) = true →
  (∀ asset, asset ∈ selected w → get_class asset = Texture →
     Str.contains "_" (get_path_name asset) = true) →
  ∃ material w1 y_pos w2 w3,
    create_empty_material name w = (Ok (Some material), w1) ∧
    for_each_with (selected w) 0 (place_asset (Some material)) w1 =
      (Ok y_pos, w2) ∧
    create_material_from_textures name w = (Ok (), w3) ∧
    log w3 = log w2 ++ [ReqRecompileMaterial (Some material);
                        ReqSaveAsset (get_path_name material) true;
                        ReqOpenEditorForAssets [Some material]] ∧
    registry w3 = registry w2 ∧
    selected w3 = selected w2 ∧
    expressions w3 = expressions w2.
Proof.
  intros Hmaterial Hnames.
  assert (∃ material w1, create_empty_material name w = (Ok (Some material), w1))
    as (material & w1 & Hcreate).
  { destruct (registry w !! package_name_of name w) as [asset|] eqn:Hlookup.
    - exists asset, w. by apply create_empty_material_existing.
    - destruct Hmaterial as [[? [=]]|Hslash].
      destruct (StrFacts.rsplit_1_contains "/" _ ltac:(done) Hslash) as
        (path & asset_name & Hsplit & _).
      rewrite (create_empty_material_new _ _ _ _ Hlookup Hsplit).
      by eexists _, _. }
  destruct (place_assets_ok material (selected w) 0 w1 Hnames)
    as (y_pos & w2 & Hloop & _).
  eexists material, w1, y_pos, w2, _. split_and!; [done|done|..].
  - rewrite create_material_from_textures_unfold, bind_unfold, Hcreate.
    rewrite bind_unfold, Hloop. apply finish_some.
  - done.
  - done.
  - done.
  - done.
Qed.

Lemma create_material_from_textures_finishes_witness :
  ∃ material w1 y_pos w2 w3,
    @create_empty_material plain_editor "/Game/M_Rock" rock_project =
      (Ok (Some material), w1) ∧
    for_each_with (selected rock_project) 0 (place_asset (Some material)) w1 =
      (Ok y_pos, w2) ∧
    @create_material_from_textures plain_editor "/Game/M_Rock" rock_project =
      (Ok (), w3) ∧
    log w3 = log w2 ++ [ReqRecompileMaterial (Some material);
                        ReqSaveAsset (get_path_name material) true;
                        ReqOpenEditorForAssets [Some material]] ∧
    registry w3 = registry w2 ∧
    selected w3 = selected w2 ∧
    expressions w3 = expressions w2.
Proof.
  apply (@create_material_from_textures_finishes
           plain_editor "/Game/M_Rock" rock_project).
  - right. reflexivity.
  - intros asset Hin _.
    repeat (apply elem_of_cons in Hin as [->|Hin]; [reflexivity|]).
    by apply elem_of_nil in Hin.
Defined.

Section outcomes.
Context `{Editor}.

Lemma create_empty_material_some name w material w1 :
  create_empty_material name w = (Ok material, w1) → ∃ m, material = Some m.
Proof.
  rewrite create_empty_material_unfold.
  destruct (registry w !! _) as [asset|]; [intros [= <- _]; by eexists|].
  rewrite bind_unfold. destruct (getitem _ 0 w) as [[path|e] w0]; [|done].
  rewrite bind_unfold. destruct (getitem _ 1 w0) as [[asset_name|e] w0']; [|done].
  intros [= <- _]. by eexists.
Qed.

(** Every run that returns normally ends with the three requests. *)
Lemma create_material_from_textures_ok_inv name w w3 :
  create_material_from_textures name w = (Ok (), w3) →
  ∃ material w1 y_pos w2,
    create_empty_material name w = (Ok (Some material), w1) ∧
    for_each_with (selected w) 0 (place_asset (Some material)) w1 =
      (Ok y_pos, w2) ∧
    log w3 = log w2 ++ [ReqRecompileMaterial (Some material);
                        ReqSaveAsset (get_path_name material) true;
                        ReqOpenEditorForAssets [Some material]].
Proof.
  rewrite create_material_from_textures_unfold, bind_unfold.
  destruct (create_empty_material name w) as [[material|e] w1] eqn:Hcreate; [|done].
  destruct (create_empty_material_some _ _ _ _ Hcreate) as [m ->].
  rewrite bind_unfold.
  destruct (for_each_with _ _ _ w1) as [[y_pos|e] w2] eqn:Hloop; [|done].
  rewrite finish_some. intros [= <-]. by exists m, w1, y_pos, w2.
Qed.

(** An exception comes from finding or creating the material or from the
    loop, and the run stops there: none of the three requests is issued. *)
Lemma create_material_from_textures_raise_inv name w e w' :
  create_material_from_textures name w = (Raise e, w') →
  create_empty_material name w = (Raise e, w') ∨
  ∃ material w1,
    create_empty_material name w = (Ok (Some material), w1) ∧
    for_each_with (selected w) 0 (place_asset (Some material)) w1 = (Raise e, w').
Proof.
  rewrite create_material_from_textures_unfold, bind_unfold.
  destruct (create_empty_material name w) as [[material|e'] w1] eqn:Hcreate;
    [|intros [= <- <-]; by left].
  destruct (create_empty_material_some _ _ _ _ Hcreate) as [m ->].
  rewrite bind_unfold.
  destruct (for_each_with _ _ _ w1) as [[y_pos|e'] w2] eqn:Hloop.
  - by rewrite finish_some.
  - intros [= <- <-]. right. by exists m, w1.
Qed.

End outcomes.

(** ** Assets that are not textures *)

Section selection_blind.
Context {A B : Type}.

Lemma blind_ret (a : A) : selection_blind (mret (M:=M) a).
Proof. by intros assets w. Qed.

Lemma blind_throw (e : Exn) : selection_blind (mthrow (M:=M) (A:=A) e).
Proof. by intros assets w. Qed.

Lemma blind_bind (c : M A) (k : A → M B) :
  selection_blind c → (∀ a, selection_blind (k a)) → selection_blind (c ≫= k).
Proof.
  intros Hc Hk assets w. rewrite !bind_unfold, Hc.
  destruct (c w) as [[a|e] w1]; simpl; [apply Hk|done].
Qed.

Lemma blind_getitem (xs : list A) (i : nat) : selection_blind (getitem xs i).
Proof. unfold getitem. destruct (xs !! i); [apply blind_ret|apply blind_throw]. Qed.

End selection_blind.

Lemma blind_for_each {A} (xs : list A) (body : A → M unit) :
  (∀ x, selection_blind (body x)) → selection_blind (for_each xs body).
Proof.
  intros Hbody. induction xs as [|x xs IH]; [by intros assets w|].
  rewrite for_each_cons. by apply blind_bind.
Qed.

Lemma blind_for_each_with {A B} (xs : list A) (local : B) (body : A → B → M B) :
  (∀ x local, selection_blind (body x local)) →
  selection_blind (for_each_with xs local body).
Proof.
  intros Hbody. revert local.
  induction xs as [|x xs IH]; intros local; [by intros assets w|].
  rewrite for_each_with_cons. by apply blind_bind.
Qed.

Lemma blind_request (r : Request) : selection_blind (request r).
Proof. by intros assets w. Qed.

Lemma blind_execute action material sampler y_pos :
  selection_blind (execute action material sampler y_pos).
Proof.
  destruct action as [out prop|out prop scale|prop value|ty]; simpl.
  - apply blind_request.
  - by intros assets w.
  - destruct material; [apply blind_request|apply blind_throw].
  - apply blind_request.
Qed.

Lemma blind_apply_texture material texture_name y_pos :
  selection_blind (apply_texture material texture_name y_pos).
Proof.
  unfold apply_texture. apply blind_bind; [by intros assets w|intros sampler].
  apply blind_bind; [by intros assets w|intros texture].
  apply blind_bind; [apply blind_request|intros _].
  apply blind_bind; [apply blind_getitem|intros suffix].
  apply blind_bind; [|intros _; apply blind_ret].
  apply blind_for_each_with. intros [key acts] s. unfold apply_key.
  destruct (Str.contains _ _); [|apply blind_ret].
  apply blind_bind; [|intros _; apply blind_ret].
  apply blind_for_each. intros action. apply blind_execute.
Qed.

Lemma blind_place_asset material asset y_pos :
  selection_blind (place_asset material asset y_pos).
Proof.
  unfold place_asset. destruct (isinstance asset Texture); [|apply blind_ret].
  apply blind_bind; [apply blind_apply_texture|intros _; apply blind_ret].
Qed.

Lemma blind_finish material : selection_blind (finish material).
Proof.
  unfold finish. apply blind_bind; [apply blind_request|intros _].
  apply blind_bind.
  { destruct material; [apply blind_ret|apply blind_throw]. }
  intros path_name. apply blind_bind; [apply blind_request|intros _].
  apply blind_bind; [apply blind_ret|intros _]. apply blind_request.
Qed.

Section script.
Context `{Editor}.

Lemma blind_create_empty_material name :
  selection_blind (create_empty_material name).
Proof.
  unfold create_empty_material.
  apply blind_bind; [apply blind_ret|intros _].
  apply blind_bind; [by intros assets w|intros [package_name asset_name]].
  apply blind_bind; [by intros assets w|intros exists_].
  destruct (negb exists_); [|by intros assets w].
  apply blind_bind; [apply blind_getitem|intros path].
  apply blind_bind; [apply blind_getitem|intros asset_name'].
  by intros assets w.
Qed.

Lemma blind_script name assets : selection_blind (script name assets).
Proof.
  unfold script. apply blind_bind; [apply blind_create_empty_material|].
  intros material. apply blind_bind; [|intros _; apply blind_finish].
  apply blind_for_each_with. intros asset y_pos. apply blind_place_asset.
Qed.

Lemma create_material_from_textures_script name w :
  create_material_from_textures name w = script name (selected w) w.
Proof. apply create_material_from_textures_unfold. Qed.

Lemma create_material_from_textures_select name assets w :
  create_material_from_textures name (select assets w) =
  ((script name assets w).1, select assets (script name assets w).2).
Proof.
  rewrite create_material_from_textures_script. apply blind_script.
Qed.

End script.

Lemma place_assets_skip material before asset after y_pos w :
  get_class asset ≠ Texture →
  for_each_with (before ++ asset :: after) y_pos (place_asset material) w =
  for_each_with (before ++ after) y_pos (place_asset material) w.
Proof.
  intros Hc. rewrite !place_assets_from. unfold textures_of.
  by rewrite !filter_app, filter_cons_False.
Qed.

(** C10.  A selected asset that is not a texture is passed over: the loop
    body returns the offset it was given and leaves the world alone, the
    loop over a selection containing the asset behaves as the loop over
    the selection without it, and so does the whole of
    [create_material_from_textures]: same outcome, same requests, same
    registry. *)
Theorem non_textures_are_skipped `{Editor} name before asset after w :
  isinstance asset Texture = false →
  (∀ material y_pos w',
     place_asset material asset y_pos w' = (Ok y_pos, w')) ∧
  (∀ material y_pos w',
     for_each_with (before ++ asset :: after) y_pos (place_asset material) w' =
     for_each_with (before ++ after) y_pos (place_asset material) w') ∧
  (create_material_from_textures name (select (before ++ asset :: after) w)).1 =
    (create_material_from_textures name (select (before ++ after) w)).1 ∧
  log (create_material_from_textures name (select (before ++ asset :: after) w)).2 =
    log (create_material_from_textures name (select (before ++ after) w)).2 ∧
  registry (create_material_from_textures name (select (before ++ asset :: after) w)).2 =
    registry (create_material_from_textures name (select (before ++ after) w)).2 ∧
  expressions (create_material_from_textures name (select (before ++ asset :: after) w)).2 =
    expressions (create_material_from_textures name (select (before ++ after) w)).2.
Proof.
  intros Hi.
  assert (get_class asset ≠ Texture) as Hc.
  { intros Hc%isinstance_spec. congruence. }
  assert (script name (before ++ asset :: after) w =
          script name (before ++ after) w) as Hscript.
  { unfold script. rewrite !bind_unfold.
    destruct (create_empty_material name w) as [[material|e] w1]; [|done].
    by rewrite !bind_unfold, place_assets_skip. }
  rewrite !create_material_from_textures_select, Hscript.
  split_and!; [|by intros; apply place_assets_skip|done..].
  intros material y_pos w'. by rewrite place_asset_other.
Qed.

Lemma non_textures_are_skipped_witness :
  isinstance {| get_path_name := "/Game/SM_Rock"; get_class := OtherClass |} Texture = false ∧
  log (@create_material_from_textures plain_editor "/Game/M_Rock" rock_project).2 =
  log (@create_material_from_textures plain_editor "/Game/M_Rock"
         (select [ {| get_path_name := "/Game/T_Rock_DA"; get_class := Texture |};
                   {| get_path_name := "/Game/T_Rock_N"; get_class := Texture |} ]
            rock_project)).2.
Proof.
  split; [reflexivity|].
  exact (proj1 (proj2 (proj2 (proj2
    (@non_textures_are_skipped plain_editor "/Game/M_Rock"
       [ {| get_path_name := "/Game/T_Rock_DA"; get_class := Texture |} ]
       {| get_path_name := "/Game/SM_Rock"; get_class := OtherClass |}
       [ {| get_path_name := "/Game/T_Rock_N"; get_class := Texture |} ]
       rock_project eq_refl))))).
Defined.

(** * Further properties *)

(** ** Which keys run *)

Lemma matched_cons_match key acts items texture_suffix :
  Str.contains key texture_suffix = true →
  matched ((key, acts) :: items) texture_suffix =
  (key, acts) :: matched items (Str.replace key "" texture_suffix).
Proof. intros Hc. simpl. by rewrite Hc. Qed.

Lemma matched_cons_skip key acts items texture_suffix :
  Str.contains key texture_suffix = false →
  matched ((key, acts) :: items) texture_suffix = matched items texture_suffix.
Proof. intros Hc. simpl. by rewrite Hc. Qed.

(** Items none of whose keys occurs in the suffix are passed over. *)
Lemma matched_app_skip items1 items2 texture_suffix :
  (∀ key, key ∈ items1.*1 → Str.contains key texture_suffix = false) →
  matched (items1 ++ items2) texture_suffix = matched items2 texture_suffix.
Proof.
  induction items1 as [|[key acts] items1 IH]; intros Hnone; [done|].
  rewrite <- app_comm_cons, matched_cons_skip.
  - apply IH. intros key' Hin. apply Hnone. rewrite fmap_cons. by right.
  - apply Hnone. rewrite fmap_cons. by left.
Qed.

Lemma matched_nil_inv items texture_suffix :
  matched items texture_suffix = [] →
  ∀ key, key ∈ items.*1 → Str.contains key texture_suffix = false.
Proof.
  induction items as [|[key acts] items IH]; intros Hnil key' Hin.
  { by apply elem_of_nil in Hin. }
  simpl in Hnil. destruct (Str.contains key texture_suffix) eqn:Hc; [done|].
  rewrite fmap_cons in Hin. apply elem_of_cons in Hin as [->|Hin]; [done|].
  by apply IH.
Qed.

(** X1.  A texture whose suffix is exactly a key of the table gets the
    actions registered under that key and no others: the order of the
    table, with [DA] before [D] and [AO] before [A], keeps the shorter keys
    from matching as well. *)
Theorem suffix_equal_to_key material before key acts y_pos w :
  (key, acts) ∈ actions →
  apply_texture material (before +:+ "_" +:+ key) y_pos w =
  (sampler ← sample_texture material (before +:+ "_" +:+ key) y_pos;
   run_actions acts material sampler y_pos) w.
Proof.
  intros Hin.
  assert (Str.contains "_" key = false ∧ matched actions key = [(key, acts)])
    as [Hkey Hmatched].
  { unfold actions in Hin.
    repeat (apply elem_of_cons in Hin as [[= -> ->]|Hin]; [by split|]).
    by apply elem_of_nil in Hin. }
  rewrite (apply_texture_suffix _ _ before key) by by apply rsplit_suffix.
  rewrite Hmatched. simpl flat_map. by rewrite app_nil_r.
Qed.

Lemma suffix_equal_to_key_witness :
  apply_texture (Some rock_material) "/Game/T_Rock_AO" 0 rock_project =
  (sampler ← sample_texture (Some rock_material) "/Game/T_Rock_AO" 0;
   run_actions [CreateConnection "R" MP_AMBIENT_OCCLUSION;
                SetSamplerType SAMPLERTYPE_MASKS]
     (Some rock_material) sampler 0) rock_project.
Proof.
  apply (suffix_equal_to_key (Some rock_material) "/Game/T_Rock" "AO").
  unfold actions. do 2 apply list_elem_of_further. apply list_elem_of_here.
Defined.

(** X2.  The first key of the table, in table order, that is a substring
    of the suffix always has its actions run, and they are the first to
    run after the texture has been sampled. *)
Theorem first_matching_key_runs material before texture_suffix y_pos w
    earlier key acts later :
  Str.contains "_" texture_suffix = false →
  actions = earlier ++ (key, acts) :: later →
  (∀ key', key' ∈ earlier.*1 → Str.contains key' texture_suffix = false) →
  Str.contains key texture_suffix = true →
  apply_texture material (before +:+ "_" +:+ texture_suffix) y_pos w =
  (sampler ← sample_texture material (before +:+ "_" +:+ texture_suffix) y_pos;
   run_actions acts material sampler y_pos;;
   run_actions
     (flat_map snd (matched later (Str.replace key "" texture_suffix)))
     material sampler y_pos) w.
Proof.
  intros Hsuffix Hactions Hearlier Hkey.
  rewrite (apply_texture_suffix _ _ before texture_suffix)
    by by apply rsplit_suffix.
  rewrite Hactions, matched_app_skip, matched_cons_match by done.
  rewrite !bind_unfold, sample_texture_run. cbv beta iota.
  simpl flat_map. unfold run_actions. by rewrite for_each_app.
Qed.

Lemma first_matching_key_runs_witness :
  apply_texture (Some rock_material) "/Game/T_Rock_NM" 0 rock_project =
  (sampler ← sample_texture (Some rock_material) "/Game/T_Rock_NM" 0;
   run_actions [CreateConnection "RGB" MP_NORMAL;
                SetSamplerType SAMPLERTYPE_NORMAL]
     (Some rock_material) sampler 0;;
   run_actions
     (flat_map snd
        (matched
           [("M", [CreateConnection "R" MP_METALLIC;
                   SetSamplerType SAMPLERTYPE_MASKS]);
            ("R", [CreateConnection "G" MP_ROUGHNESS;
                   SetSamplerType SAMPLERTYPE_MASKS]);
            ("S", [CreateConnection "B" MP_SPECULAR;
                   SetSamplerType SAMPLERTYPE_MASKS]);
            ("E", [CreateConnectionScaled "RGB" MP_EMISSIVE_COLOR 15])]
           (Str.replace "N" "" "NM")))
     (Some rock_material) sampler 0) rock_project.
Proof.
  apply (first_matching_key_runs (Some rock_material) "/Game/T_Rock" "NM" 0
           rock_project (take 4 actions) "N"
           [CreateConnection "RGB" MP_NORMAL; SetSamplerType SAMPLERTYPE_NORMAL]);
    [reflexivity|reflexivity| |reflexivity].
  intros key' Hin.
  repeat (apply elem_of_cons in Hin as [->|Hin]; [reflexivity|]).
  by apply elem_of_nil in Hin.
Defined.

Lemma extends_log_length w w' :
  extends w w' → (length (log w) ≤ length (log w'))%nat.
Proof. intros (_ & _ & _ & rs & ->). rewrite length_app. lia. Qed.

Lemma execute_connects_logs action material sampler y_pos w :
  connects action = true →
  (length (log w) < length (log (execute action material sampler y_pos w).2))%nat.
Proof.
  destruct action as [out prop|out prop scale|prop value|ty]; try done;
    intros _; simpl; rewrite !length_app; simpl; lia.
Qed.

Lemma run_actions_connects_logs action acts material sampler y_pos w :
  connects action = true →
  (length (log w) <
   length (log (run_actions (action :: acts) material sampler y_pos w).2))%nat.
Proof.
  intros Hc. rewrite run_actions_cons, bind_unfold.
  pose proof (execute_connects_logs action material sampler y_pos w Hc) as Hlt.
  destruct (execute action material sampler y_pos w) as [[[]|e] w1]; [|done].
  pose proof (extends_log_length _ _
    (run_actions_extends acts material sampler y_pos w1)). simpl in Hlt. lia.
Qed.

(** Every entry of the table starts with a connection. *)
Lemma actions_start_connecting key acts :
  (key, acts) ∈ actions → ∃ action acts', acts = action :: acts' ∧ connects action = true.
Proof.
  intros Hin. unfold actions in Hin.
  repeat (apply elem_of_cons in Hin as [[= -> ->]|Hin]; [by eexists _, _|]).
  by apply elem_of_nil in Hin.
Qed.

Lemma execute_connects_request action material sampler y_pos w :
  connects action = true →
  ∃ rs r,
    execute action material sampler y_pos w =
      (Ok (), (execute action material sampler y_pos w).2) ∧
    log (execute action material sampler y_pos w).2 = log w ++ rs ∧
    r ∈ rs ∧ connecting r = true.
Proof.
  destruct action as [out prop|out prop scale|prop value|ty]; try done; intros _.
  - exists [ReqConnectMaterialProperty sampler out prop],
      (ReqConnectMaterialProperty sampler out prop).
    split_and!; [reflexivity|reflexivity|apply list_elem_of_here|reflexivity].
  - exists [ReqCreateMaterialExpression material MaterialExpressionMultiply (-250) y_pos;
            ReqSetExpressionProperty (expressions w) "ConstB" (VNum scale);
            ReqConnectMaterialExpressions sampler out (expressions w) "A";
            ReqConnectMaterialProperty (expressions w) "" prop],
      (ReqConnectMaterialExpressions sampler out (expressions w) "A").
    split_and!; [reflexivity| | |reflexivity].
    + simpl. by rewrite <- !(assoc_L (++)).
    + do 2 apply list_elem_of_further. apply list_elem_of_here.
Qed.

Lemma run_actions_connects_request action acts material sampler y_pos w :
  connects action = true →
  ∃ rs r,
    log (run_actions (action :: acts) material sampler y_pos w).2 = log w ++ rs ∧
    r ∈ rs ∧ connecting r = true.
Proof.
  intros Hc. rewrite run_actions_cons, bind_unfold.
  destruct (execute_connects_request action material sampler y_pos w Hc)
    as (rs1 & r & Hrun & Hlog & Hr & Hconn).
  rewrite Hrun. cbv beta iota.
  destruct (run_actions_extends acts material sampler y_pos
              (execute action material sampler y_pos w).2)
    as (_ & _ & _ & rs2 & Hlog2).
  exists (rs1 ++ rs2), r. split_and!; [|apply elem_of_app; by left|done].
  by rewrite Hlog2, Hlog, (assoc_L (++)).
Qed.

(** X3.  For a well-formed name, [apply_texture] stops at the bare texture
    sample exactly when no key of the table is a substring of the suffix:
    as soon as one key occurs in it, the call goes on to request a
    connection. *)
Theorem only_sampled_iff material before texture_suffix y_pos w :
  Str.contains "_" texture_suffix = false →
  (apply_texture material (before +:+ "_" +:+ texture_suffix) y_pos w =
     (Ok (),
      (sample_texture material (before +:+ "_" +:+ texture_suffix) y_pos w).2) ↔
   ∀ key, key ∈ actions.*1 → Str.contains key texture_suffix = false) ∧
  ((∃ key, key ∈ actions.*1 ∧ Str.contains key texture_suffix = true) →
   ∃ rs r,
     log (apply_texture material (before +:+ "_" +:+ texture_suffix) y_pos w).2 =
       log (sample_texture material
              (before +:+ "_" +:+ texture_suffix) y_pos w).2 ++ rs ∧
     r ∈ rs ∧ connecting r = true).
Proof.
  intros Hsuffix.
  rewrite (apply_texture_suffix _ _ before texture_suffix)
    by by apply rsplit_suffix.
  rewrite bind_unfold, sample_texture_run. cbv beta iota.
  set (w1 := Build_World _ _ _ _).
  change (snd (Ok (expressions w), w1)) with w1.
  assert (matched actions texture_suffix ≠ [] →
          ∃ action acts, flat_map snd (matched actions texture_suffix) = action :: acts
                         ∧ connects action = true) as Hfirst.
  { destruct (matched actions texture_suffix) as [|[key acts] ran] eqn:Hm; [done|].
    intros _.
    assert ((key, acts) ∈ actions) as Hin.
    { eapply elem_of_sublist; [|apply (matched_sublist actions texture_suffix)].
      rewrite Hm. by left. }
    destruct (actions_start_connecting _ _ Hin) as (action & acts' & -> & Hc).
    by exists action, (acts' ++ flat_map snd ran). }
  split; [split|].
  - intros Hrun. apply matched_nil_inv.
    destruct (matched actions texture_suffix) as [|item ran] eqn:Hm; [done|].
    destruct (Hfirst ltac:(done)) as (action & acts & Hflat & Hc).
    pose proof (run_actions_connects_logs action acts
      material (expressions w) y_pos w1 Hc) as Hlt.
    rewrite <- Hflat, Hrun in Hlt. simpl in Hlt. lia.
  - intros Hnone. by rewrite matched_none.
  - intros (key & Hkey & Hc).
    destruct (Hfirst) as (action & acts & -> & Hconn).
    { intros Hnil. pose proof (matched_nil_inv _ _ Hnil key Hkey). congruence. }
    by apply run_actions_connects_request.
Qed.

Lemma only_sampled_iff_witness :
  (apply_texture (Some rock_material) "/Game/T_Rock_X" 0 rock_project =
     (Ok (), (sample_texture (Some rock_material) "/Game/T_Rock_X" 0 rock_project).2) ↔
   ∀ key, key ∈ actions.*1 → Str.contains key "X" = false) ∧
  ∃ rs r,
    log (apply_texture (Some rock_material) "/Game/T_Rock_E" 0 rock_project).2 =
      log (sample_texture (Some rock_material) "/Game/T_Rock_E" 0 rock_project).2
      ++ rs ∧
    r ∈ rs ∧ connecting r = true.
Proof.
  split.
  - apply (only_sampled_iff (Some rock_material) "/Game/T_Rock" "X" 0 rock_project).
    reflexivity.
  - apply (only_sampled_iff (Some rock_material) "/Game/T_Rock" "E" 0 rock_project);
      [reflexivity|].
    exists "E". split; [|reflexivity].
    rewrite actions_keys. do 8 apply list_elem_of_further. apply list_elem_of_here.
Defined.

(** ** The nodes a call works on *)

Lemma grows_refl lo w : grows lo w w.
Proof.
  repeat split; [lia|]. exists []. split; [by rewrite app_nil_r|].
  intros r e Hr. by apply elem_of_nil in Hr.
Qed.

Lemma grows_trans lo w1 w2 w3 :
  grows lo w1 w2 → grows lo w2 w3 → grows lo w1 w3.
Proof.
  intros (Hr1 & Hs1 & He1 & rs1 & Hl1 & Hb1) (Hr2 & Hs2 & He2 & rs2 & Hl2 & Hb2).
  repeat split; [congruence|congruence|lia|].
  exists (rs1 ++ rs2). split; [by rewrite Hl2, Hl1, (assoc_L (++))|].
  intros r e [Hr|Hr]%elem_of_app He.
  - specialize (Hb1 r e Hr He). lia.
  - by apply (Hb2 r e).
Qed.

Lemma grows_request lo r w :
  (∀ e, e ∈ request_expressions r → (lo ≤ e < expressions w)%nat) →
  grows lo w (request r w).2.
Proof.
  intros Hr. repeat split; simpl; [lia|]. exists [r]. split; [done|].
  intros r' e ->%list_elem_of_singleton. apply Hr.
Qed.

Lemma execute_grows lo action material sampler y_pos w :
  (lo ≤ sampler < expressions w)%nat →
  grows lo w (execute action material sampler y_pos w).2.
Proof.
  intros Hsampler.
  destruct action as [out prop|out prop scale|prop value|ty]; simpl.
  - apply grows_request. intros e ->%list_elem_of_singleton. done.
  - repeat split; simpl; [lia|]. eexists. split.
    { by rewrite <- !(assoc_L (++)). }
    intros r e Hr He. simpl in Hr.
    repeat (apply elem_of_cons in Hr as [->|Hr];
            [simpl in He;
             repeat (apply elem_of_cons in He as [->|He]; [lia|]);
             by apply elem_of_nil in He|]).
    by apply elem_of_nil in Hr.
  - destruct material; [|apply grows_refl].
    apply grows_request. intros e He. by apply elem_of_nil in He.
  - apply grows_request. intros e ->%list_elem_of_singleton. done.
Qed.

Lemma run_actions_grows lo acts material sampler y_pos w :
  (lo ≤ sampler < expressions w)%nat →
  grows lo w (run_actions acts material sampler y_pos w).2.
Proof.
  revert w. induction acts as [|a acts IH]; intros w Hsampler; [apply grows_refl|].
  rewrite run_actions_cons, bind_unfold.
  pose proof (execute_grows lo a material sampler y_pos w Hsampler) as Hg.
  destruct (execute a material sampler y_pos w) as [[[]|e] w1]; [|done].
  simpl in Hg. eapply grows_trans; [exact Hg|]. apply IH.
  destruct Hg as (_ & _ & He & _). lia.
Qed.

(** X4.  A call of [apply_texture] works on its own nodes only: it creates
    at least one material expression, every request it issues about an
    expression is about one it has created itself, and it changes neither
    the asset registry nor the selection.  This holds whether the call
    returns or raises. *)
Theorem apply_texture_own_nodes material texture_name y_pos w :
  registry (apply_texture material texture_name y_pos w).2 = registry w ∧
  selected (apply_texture material texture_name y_pos w).2 = selected w ∧
  (expressions w < expressions (apply_texture material texture_name y_pos w).2)%nat ∧
  ∃ rs,
    log (apply_texture material texture_name y_pos w).2 = log w ++ rs ∧
    ∀ r e, r ∈ rs → e ∈ request_expressions r →
      (expressions w ≤ e <
       expressions (apply_texture material texture_name y_pos w).2)%nat.
Proof.
  assert (grows (expressions w) w (sample_texture material texture_name y_pos w).2
          ∧ expressions (sample_texture material texture_name y_pos w).2
            = S (expressions w)) as [Hs Hexp].
  { rewrite sample_texture_run. split; [|done].
    repeat split; simpl; [lia|]. eexists. split; [done|].
    intros r e Hr He.
    repeat (apply elem_of_cons in Hr as [->|Hr];
            [simpl in He;
             repeat (apply elem_of_cons in He as [->|He]; [lia|]);
             by apply elem_of_nil in He|]).
    by apply elem_of_nil in Hr. }
  assert (grows (expressions w) w (apply_texture material texture_name y_pos w).2
          ∧ (expressions w <
             expressions (apply_texture material texture_name y_pos w).2)%nat)
    as [(Hreg & Hsel & _ & rs & Hlog & Hown) Hlt].
  { destruct (Str.contains "_" texture_name) eqn:Hname.
    - destruct (getitem_suffix texture_name w Hname) as
        (before & suffix & _ & _ & Hsplit & _).
      rewrite (apply_texture_suffix _ _ _ _ _ _ Hsplit), bind_unfold.
      rewrite sample_texture_run in *. cbv beta iota. simpl snd in Hs, Hexp.
      set (w1 := Build_World _ _ _ _) in *.
      pose proof (run_actions_grows (expressions w)
        (flat_map snd (matched actions suffix)) material (expressions w) y_pos w1
        ltac:(rewrite Hexp; lia)) as Hg.
      split; [by eapply grows_trans|].
      destruct Hg as (_ & _ & He & _). rewrite Hexp in He. lia.
    - rewrite apply_texture_malformed by done. cbn [snd].
      split; [done|]. rewrite Hexp. lia. }
  split_and!; [done..|]. by exists rs.
Qed.

(** ** Outcomes of [create_empty_material] *)

(** X5.  [create_empty_material] has three outcomes, told apart by the
    registry and the package name the editor computes.  When an asset is
    registered under that name, the call returns this asset, whatever its
    class, and changes nothing.  When none is registered and the name is
    [path/asset_name], split at its last slash, the call returns a new
    object of class [Material] whose path name is the package name: it is
    registered under that name, one [create_asset] request for
    [asset_name] in [path] is logged, and every other entry of the
    registry, the selection and the material expressions are as before.
    When none is registered and the name has no slash, the call raises
    [IndexError] and changes nothing. *)
Theorem create_empty_material_outcomes `{Editor} name w :
  (∃ asset,
     registry w !! package_name_of name w = Some asset ∧
     create_empty_material name w = (Ok (Some asset), w)) ∨
  (∃ path asset_name,
     registry w !! package_name_of name w = None ∧
     package_name_of name w = path +:+ "/" +:+ asset_name ∧
     Str.contains "/" asset_name = false ∧
     create_empty_material name w =
       (Ok (Some {| get_path_name := package_name_of name w;
                    get_class := Material |}),
        {| registry :=
             <[package_name_of name w :=
                 {| get_path_name := package_name_of name w;
                    get_class := Material |}]> (registry w);
           selected := selected w;
           expressions := expressions w;
           log := log w ++ [ReqCreateAsset asset_name path] |})) ∨
  (registry w !! package_name_of name w = None ∧
   Str.contains "/" (package_name_of name w) = false ∧
   create_empty_material name w = (Raise IndexError, w)).
Proof.
  destruct (registry w !! package_name_of name w) as [asset|] eqn:Hlookup.
  - left. exists asset. split; [done|].
    by apply create_empty_material_existing.
  - destruct (Str.contains "/" (package_name_of name w)) eqn:Hslash.
    + right; left.
      destruct (StrFacts.rsplit_1_contains "/" _ ltac:(done) Hslash) as
        (path & asset_name & Hsplit & Hname & Hlast).
      exists path, asset_name.
      rewrite (create_empty_material_new _ _ _ _ Hlookup Hsplit).
      unfold AssetTools.create_asset. rewrite <- Hname.
      by split_and!.
    + right; right. split_and!; [done..|].
      by apply create_empty_material_malformed.
Qed.

(** ** Outcomes of [create_material_from_textures] *)

Lemma for_each_with_app {A S} (xs ys : list A) (local : S)
    (body : A → S → M S) (w : World) :
  for_each_with (xs ++ ys) local body w =
  (local' ← for_each_with xs local body; for_each_with ys local' body) w.
Proof.
  revert local w. induction xs as [|x xs IH]; intros local w; [done|].
  rewrite <- app_comm_cons, !for_each_with_cons, !bind_unfold.
  destruct (body x local w) as [[local'|e] w1]; [|done].
  by rewrite IH, bind_unfold.
Qed.

Lemma apply_texture_some_result m texture_name y_pos w :
  (Str.contains "_" texture_name = true ∧
   (apply_texture (Some m) texture_name y_pos w).1 = Ok ()) ∨
  (Str.contains "_" texture_name = false ∧
   (apply_texture (Some m) texture_name y_pos w).1 = Raise IndexError).
Proof.
  destruct (Str.contains "_" texture_name) eqn:Hname.
  - left. split; [done|]. by apply apply_texture_some_ok.
  - right. split; [done|]. by rewrite apply_texture_malformed.
Qed.

Lemma place_assets_some_inv m assets y_pos w y_pos' w' :
  for_each_with assets y_pos (place_asset (Some m)) w = (Ok y_pos', w') →
  ∀ asset, asset ∈ assets → get_class asset = Texture →
    Str.contains "_" (get_path_name asset) = true.
Proof.
  revert y_pos w. induction assets as [|a assets IH]; intros y_pos w Hrun asset Hin Hc.
  { by apply elem_of_nil in Hin. }
  rewrite for_each_with_cons, bind_unfold in Hrun.
  destruct (place_asset (Some m) a y_pos w) as [[y1|e] w1] eqn:Hplace; [|done].
  apply elem_of_cons in Hin as [->|Hin]; [|by eapply IH].
  rewrite place_asset_texture, bind_unfold in Hplace by done.
  destruct (apply_texture_some_result m (get_path_name a) y_pos w)
    as [[Hname _]|[_ Hraise]]; [done|].
  destruct (apply_texture _ _ _ w) as [[[]|e] w2]; simpl in Hraise; congruence.
Qed.

Lemma place_assets_some_result m assets y_pos w :
  (∃ y_pos', (for_each_with assets y_pos (place_asset (Some m)) w).1 = Ok y_pos') ∨
  (for_each_with assets y_pos (place_asset (Some m)) w).1 = Raise IndexError.
Proof.
  revert y_pos w. induction assets as [|a assets IH]; intros y_pos w.
  { left. by exists y_pos. }
  rewrite for_each_with_cons, bind_unfold.
  destruct (decide (get_class a = Texture)) as [Hc|Hc].
  - rewrite place_asset_texture, bind_unfold by done.
    destruct (apply_texture_some_result m (get_path_name a) y_pos w)
      as [[_ Hok]|[_ Hraise]].
    + destruct (apply_texture _ _ _ w) as [[[]|e] w1]; [|done].
      rewrite ret_unfold. cbv beta iota. apply IH.
    + destruct (apply_texture _ _ _ w) as [[[]|e] w1]; [done|].
      right. simpl in *. congruence.
  - rewrite place_asset_other, ret_unfold by done. cbv beta iota. apply IH.
Qed.

Lemma place_assets_offset material assets y_pos w y_pos' w' :
  for_each_with assets y_pos (place_asset material) w = (Ok y_pos', w') →
  y_pos' = y_pos + 250 * Z.of_nat (length (textures_of assets)).
Proof.
  rewrite place_assets_from, bind_unfold.
  destruct (for_each _ _ w) as [[[]|e] w1]; [|done].
  rewrite ret_unfold. by intros [= <- _].
Qed.

Section outcomes_iff.
Context `{Editor}.

Lemma create_empty_material_result name w :
  (registry w !! package_name_of name w = None ∧
   Str.contains "/" (package_name_of name w) = false ∧
   create_empty_material name w = (Raise IndexError, w)) ∨
  (∃ material w',
     (is_Some (registry w !! package_name_of name w) ∨
      Str.contains "/" (package_name_of name w) = true) ∧
     create_empty_material name w = (Ok (Some material), w')).
Proof.
  destruct (registry w !! package_name_of name w) as [asset|] eqn:Hlookup.
  - right. exists asset, w. split; [by left; eexists|].
    by apply create_empty_material_existing.
  - destruct (Str.contains "/" (package_name_of name w)) eqn:Hslash.
    + right.
      destruct (StrFacts.rsplit_1_contains "/" _ ltac:(done) Hslash) as
        (path & asset_name & Hsplit & _).
      rewrite (create_empty_material_new _ _ _ _ Hlookup Hsplit).
      eexists _, _. split; [by right|reflexivity].
    + left. split_and!; [done..|]. by apply create_empty_material_malformed.
Qed.

(** X6.  [create_material_from_textures] returns normally exactly when
    the material is found or can be created (something is registered
    under the computed package name, or that name has a slash) and every
    selected texture has an underscore in its path name; otherwise it
    raises [IndexError], and nothing else. *)
Theorem create_material_from_textures_ok_iff name w :
  ((create_material_from_textures name w).1 = Ok () ↔
   (is_Some (registry w !! package_name_of name w) ∨
    Str.contains "/" (package_name_of name w) = true) ∧
   ∀ asset, asset ∈ selected w → get_class asset = Texture →
     Str.contains "_" (get_path_name asset) = true) ∧
  ((create_material_from_textures name w).1 = Ok () ∨
   (create_material_from_textures name w).1 = Raise IndexError).
Proof.
  rewrite create_material_from_textures_unfold, bind_unfold.
  destruct (create_empty_material_result name w)
    as [(Hlookup & Hslash & ->)|(m & w1 & Hmaterial & ->)].
  - split; [|by right]. split; [done|].
    intros [[[asset Hasset]|Hslash'] _]; congruence.
  - rewrite bind_unfold.
    destruct (place_assets_some_result m (selected w) 0 w1) as [[y Hok]|Hraise].
    + destruct (for_each_with _ _ _ w1) as [[y'|e] w2] eqn:Hloop; [|done].
      rewrite finish_some. split; [|by left]. split; [|done].
      intros _. split; [done|]. by eapply place_assets_some_inv.
    + destruct (for_each_with _ _ _ w1) as [[y'|e] w2] eqn:Hloop; [done|].
      simpl in Hraise. injection Hraise as ->. split; [|by right].
      split; [done|]. intros [_ Hnames].
      destruct (place_assets_ok m (selected w) 0 w1 Hnames) as (? & ? & Hrun & _).
      congruence.
Qed.

End outcomes_iff.

Lemma finishing_requests_app (rs1 rs2 : list Request) :
  finishing_requests (rs1 ++ rs2) =
  finishing_requests rs1 ++ finishing_requests rs2.
Proof. apply filter_app. Qed.

Lemma execute_finishing action material sampler y_pos w :
  finishing_requests (log (execute action material sampler y_pos w).2) =
  finishing_requests (log w).
Proof.
  destruct action as [out prop|out prop scale|prop value|ty]; simpl;
    try destruct material; simpl;
    rewrite ?finishing_requests_app; by rewrite ?app_nil_r.
Qed.

Lemma run_actions_finishing acts material sampler y_pos w :
  finishing_requests (log (run_actions acts material sampler y_pos w).2) =
  finishing_requests (log w).
Proof.
  revert w. induction acts as [|a acts IH]; intros w; [done|].
  rewrite run_actions_cons, bind_unfold.
  pose proof (execute_finishing a material sampler y_pos w) as He.
  destruct (execute a material sampler y_pos w) as [[[]|e] w1]; [|done].
  by rewrite IH.
Qed.

Lemma apply_texture_finishing material texture_name y_pos w :
  finishing_requests (log (apply_texture material texture_name y_pos w).2) =
  finishing_requests (log w).
Proof.
  assert (finishing_requests
            (log (sample_texture material texture_name y_pos w).2) =
          finishing_requests (log w)) as Hs.
  { rewrite sample_texture_run. simpl.
    rewrite finishing_requests_app. by rewrite app_nil_r. }
  destruct (Str.contains "_" texture_name) eqn:Hname.
  - destruct (getitem_suffix texture_name w Hname) as
      (before & suffix & _ & _ & Hsplit & _).
    rewrite (apply_texture_suffix _ _ _ _ _ _ Hsplit), bind_unfold.
    destruct (sample_texture _ _ _ w) as [[sampler|e] w1]; [|done].
    by rewrite run_actions_finishing.
  - by rewrite apply_texture_malformed.
Qed.

Lemma place_assets_finishing material assets y_pos w :
  finishing_requests
    (log (for_each_with assets y_pos (place_asset material) w).2) =
  finishing_requests (log w).
Proof.
  revert y_pos w. induction assets as [|a assets IH]; intros y_pos w; [done|].
  rewrite for_each_with_cons, bind_unfold.
  destruct (decide (get_class a = Texture)) as [Hc|Hc].
  - rewrite place_asset_texture, bind_unfold by done.
    pose proof (apply_texture_finishing material (get_path_name a) y_pos w) as Ha.
    destruct (apply_texture _ _ _ w) as [[[]|e] w1]; [|done].
    rewrite ret_unfold. cbv beta iota. by rewrite IH.
  - rewrite place_asset_other, ret_unfold by done. cbv beta iota. apply IH.
Qed.

Lemma for_each_ext_in {A} (xs : list A) (f g : A → M unit) (w : World) :
  (∀ x w, x ∈ xs → f x w = g x w) → for_each xs f w = for_each xs g w.
Proof.
  revert w. induction xs as [|x xs IH]; intros w Hfg; [done|].
  rewrite !for_each_cons, !bind_unfold, (Hfg x w) by by left.
  destruct (g x w) as [[[]|e] w1]; [|done].
  apply IH. intros y w' Hy. apply Hfg. by right.
Qed.

Lemma apply_texture_applied material texture_name y_pos w :
  Str.contains "_" texture_name = true →
  apply_texture material texture_name y_pos w =
  applied material texture_name y_pos w.
Proof.
  intros Hname.
  destruct (StrFacts.rsplit_1_contains "_" _ ltac:(done) Hname) as
    (before & suffix & Hsplit & _).
  rewrite (apply_texture_suffix _ _ before suffix) by done.
  unfold applied, suffix_of. by rewrite Hsplit.
Qed.

(** The loop over well-formed assets applies each texture in full. *)
Lemma place_assets_applied material assets y_pos w :
  (∀ asset, asset ∈ assets → get_class asset = Texture →
     Str.contains "_" (get_path_name asset) = true) →
  for_each_with assets y_pos (place_asset material) w =
  (for_each
     (imap (fun i asset => (get_path_name asset, y_pos + 250 * Z.of_nat i))
        (textures_of assets))
     (fun call => applied material call.1 call.2);;
   mret (y_pos + 250 * Z.of_nat (length (textures_of assets)))) w.
Proof.
  intros Hnames. rewrite place_assets_from, !bind_unfold.
  rewrite (for_each_ext_in _ _ (fun call => applied material call.1 call.2)); [done|].
  intros [texture_name y] w' Hin. apply apply_texture_applied.
  apply elem_of_lookup_imap in Hin as (i & asset & [= -> _] & Hi).
  apply list_elem_of_lookup_2 in Hi. apply list_elem_of_filter in Hi as [Hc Hin].
  by apply Hnames.
Qed.

Section abort.
Context `{Editor}.

Lemma create_empty_material_finishing name w :
  finishing_requests (log (create_empty_material name w).2) =
  finishing_requests (log w).
Proof.
  destruct (registry w !! package_name_of name w) as [asset|] eqn:Hlookup.
  { by rewrite (create_empty_material_existing _ _ _ Hlookup). }
  destruct (Str.contains "/" (package_name_of name w)) eqn:Hslash.
  - destruct (StrFacts.rsplit_1_contains "/" _ ltac:(done) Hslash) as
      (path & asset_name & Hsplit & _).
    rewrite (create_empty_material_new _ _ _ _ Hlookup Hsplit). simpl.
    rewrite finishing_requests_app. by rewrite app_nil_r.
  - by rewrite create_empty_material_malformed.
Qed.

(** X7.  A selected texture without an underscore in its path name aborts
    the run with [IndexError].  The world it leaves is the one reached by
    finding or creating the material, applying in full every texture
    selected before the malformed one (each is sampled and the actions of
    the keys its suffix matches are run), and sampling the malformed one,
    each at the offset it would otherwise have; no later asset is looked
    at, and the material is neither recompiled nor saved nor opened. *)
Theorem malformed_texture_aborts name w good bad rest :
  selected w = good ++ bad :: rest →
  (∀ asset, asset ∈ good → get_class asset = Texture →
     Str.contains "_" (get_path_name asset) = true) →
  get_class bad = Texture →
  Str.contains "_" (get_path_name bad) = false →
  is_Some (registry w !! package_name_of name w) ∨
    Str.contains "/" (package_name_of name w) = true →
  ∃ sampler w',
    applied_then_sampled name (textures_of good) bad w = (Ok sampler, w') ∧
    create_material_from_textures name w = (Raise IndexError, w') ∧
    sample_positions (log w') =
      sample_positions (log w) ++
      imap (fun i _ => (-500, 250 * Z.of_nat i)) (textures_of good ++ [bad]) ∧
    finishing_requests (log w') = finishing_requests (log w).
Proof.
  intros Hsel Hgood Hbad Hname Hmaterial.
  pose proof (create_empty_material_frame name w) as (_ & _ & Hs0).
  pose proof (create_empty_material_finishing name w) as Hf0.
  unfold applied_then_sampled.
  rewrite create_material_from_textures_unfold, !bind_unfold.
  destruct (create_empty_material_result name w)
    as [(Hlookup & Hslash & _)|(m & w1 & _ & Hcreate)].
  { destruct Hmaterial as [[asset Hasset]|Hslash']; congruence. }
  rewrite Hcreate in *. simpl in Hs0, Hf0.
  rewrite !bind_unfold, Hsel, for_each_with_app, bind_unfold.
  destruct (place_assets_ok m good 0 w1 Hgood) as (y & w2 & Hloop & _).
  pose proof (place_assets_applied (Some m) good 0 w1 Hgood) as Happlied.
  rewrite Hloop in *.
  pose proof (place_assets_samples _ _ _ _ _ _ Hloop) as Hs1.
  pose proof (place_assets_finishing (Some m) good 0 w1) as Hf1.
  rewrite Hloop in Hf1. simpl in Hf1.
  apply place_assets_offset in Hloop as ->.
  rewrite bind_unfold in Happlied. unfold layout.
  rewrite (imap_ext _
    (fun i asset => (get_path_name asset, 0 + 250 * Z.of_nat i)))
    by (intros; f_equal; lia).
  destruct (for_each _ _ w1) as [[[]|e] w2']; [|done].
  rewrite ret_unfold in Happlied. injection Happlied as <-.
  rewrite for_each_with_cons, bind_unfold, place_asset_texture, bind_unfold by done.
  pose proof (apply_texture_samples (Some m) (get_path_name bad)
    (0 + 250 * Z.of_nat (length (textures_of good))) w2) as Hs2.
  pose proof (apply_texture_finishing (Some m) (get_path_name bad)
    (0 + 250 * Z.of_nat (length (textures_of good))) w2) as Hf2.
  rewrite apply_texture_malformed in * by done. rewrite Z.add_0_l in *.
  destruct (sample_texture (Some m) (get_path_name bad) _ w2)
    as [[sampler|e] w3] eqn:Hsample;
    [|by rewrite sample_texture_run in Hsample].
  simpl in Hs2, Hf2. exists sampler, w3.
  split; [done|]. split; [done|]. split; [|congruence].
  rewrite Hs2, Hs1, Hs0, imap_app, <- (assoc_L (++)). simpl.
  do 4 f_equal. rewrite Nat.add_0_r. lia.
Qed.

(** X8.  With no texture in the selection, in particular with nothing
    selected, [create_material_from_textures] finds or creates the
    material and goes straight on to recompiling, saving and opening
    it. *)
Theorem no_texture_selected name w :
  (∀ asset, asset ∈ selected w → get_class asset ≠ Texture) →
  create_material_from_textures name w =
  (material ← create_empty_material name; finish material) w.
Proof.
  intros Hnone.
  assert (textures_of (selected w) = []) as Hempty.
  { unfold textures_of. induction (selected w) as [|a assets IH]; [done|].
    rewrite filter_cons_False by (apply Hnone; by left).
    apply IH. intros asset Hin. apply Hnone. by right. }
  rewrite create_material_from_textures_unfold, !bind_unfold.
  destruct (create_empty_material name w) as [[material|e] w1]; [|done].
  by rewrite bind_unfold, place_assets_from, Hempty.
Qed.

End abort.

Lemma malformed_texture_aborts_witness :
  ∃ sampler w',
    @applied_then_sampled plain_editor "/Game/M_Rock"
      [ {| get_path_name := "/Game/T_Rock_D"; get_class := Texture |} ]
      {| get_path_name := "/Game/Rock"; get_class := Texture |}
      (select [ {| get_path_name := "/Game/T_Rock_D"; get_class := Texture |};
                {| get_path_name := "/Game/Rock"; get_class := Texture |};
                {| get_path_name := "/Game/T_Rock_N"; get_class := Texture |} ]
         rock_project) = (Ok sampler, w') ∧
    @create_material_from_textures plain_editor "/Game/M_Rock"
      (select [ {| get_path_name := "/Game/T_Rock_D"; get_class := Texture |};
                {| get_path_name := "/Game/Rock"; get_class := Texture |};
                {| get_path_name := "/Game/T_Rock_N"; get_class := Texture |} ]
         rock_project) = (Raise IndexError, w') ∧
    sample_positions (log w') = [(-500, 0); (-500, 250)] ∧
    finishing_requests (log w') = [].
Proof.
  assert (∀ asset,
            asset ∈ [ {| get_path_name := "/Game/T_Rock_D"; get_class := Texture |} ] →
            get_class asset = Texture →
            Str.contains "_" (get_path_name asset) = true) as Hgood.
  { intros asset Hin _.
    apply elem_of_cons in Hin as [->|Hin]; [reflexivity|].
    by apply elem_of_nil in Hin. }
  exact (@malformed_texture_aborts plain_editor "/Game/M_Rock"
           (select [ {| get_path_name := "/Game/T_Rock_D"; get_class := Texture |};
                     {| get_path_name := "/Game/Rock"; get_class := Texture |};
                     {| get_path_name := "/Game/T_Rock_N"; get_class := Texture |} ]
              rock_project)
           [ {| get_path_name := "/Game/T_Rock_D"; get_class := Texture |} ]
           {| get_path_name := "/Game/Rock"; get_class := Texture |}
           [ {| get_path_name := "/Game/T_Rock_N"; get_class := Texture |} ]
           eq_refl Hgood eq_refl eq_refl (or_intror eq_refl)).
Defined.

Lemma no_texture_selected_witness :
  @create_material_from_textures plain_editor "/Game/M_Rock" (select [] rock_project) =
  (material ← @create_empty_material plain_editor "/Game/M_Rock"; finish material)
    (select [] rock_project).
Proof.
  apply (@no_texture_selected plain_editor).
  intros asset Hin. by apply elem_of_nil in Hin.
Defined.

(** X9.  The loop over a selection made of two parts is the loop over the
    first part followed by the loop over the second, started at the offset
    the first has reached: 250 for each texture of the first part. *)
Theorem place_assets_app material assets1 assets2 y_pos w :
  for_each_with (assets1 ++ assets2) y_pos (place_asset material) w =
  (for_each_with assets1 y_pos (place_asset material);;
   for_each_with assets2
     (y_pos + 250 * Z.of_nat (length (textures_of assets1)))
     (place_asset material)) w.
Proof.
  rewrite for_each_with_app, !bind_unfold.
  destruct (for_each_with assets1 _ _ w) as [[y|e] w1] eqn:Hloop; [|done].
  by apply place_assets_offset in Hloop as ->.
Qed.
